(** * Top-down zombie shooter: the per-frame simulation step of [script.js]

    The development embeds the simulation part of [script.js] (the utility
    helpers, the entity constructors, [spawnZombie], [tryShoot], [update] and
    the guarded call of [gameLoop]) and proves properties of it.

    JavaScript has one numeric type.  The embedding is written once, over an
    interface [Number] that lists the operations the script uses on numbers
    ([+ - * /], the comparisons, [Math.sqrt], [Math.floor], [Math.max],
    [Math.min]), and is then read at two carriers:

    - [float], Rocq's primitive IEEE 754 binary64 numbers, which is what a
      JavaScript engine computes with; every definition runs there;
    - [R], the real numbers, the idealised arithmetic in which statements
      such as "x + v * 0 = x" hold for every x.

    Theorems that only follow the control flow of the script are proved for
    every carrier; theorems that need arithmetic are proved over [R].

    The arrays [bullets] and [zombies] are lists, read with [l !! i], written
    with [<[i:=x]> l], and [splice(i,1)] is [delete i l].  The loops of
    [update] run over indices from [length - 1] down to [0], as in the
    script. *)

From Stdlib Require Import ZArith Reals Lra Lia Bool String.
From Stdlib Require PrimFloat SpecFloat FloatOps Uint63.
From Stdlib Require Import PrimFloat.
From stdpp Require Import base list.

(** ** Numbers *)

Class Number (F : Type) := {
  num : Z -> F;                     (* an integer literal, or [array.length] *)
  js_add : F -> F -> F;
  js_sub : F -> F -> F;
  js_mul : F -> F -> F;
  js_div : F -> F -> F;
  js_lt : F -> F -> bool;           (* a < b  ;  a > b is [js_lt b a] *)
  js_le : F -> F -> bool;           (* a <= b *)
  js_eq : F -> F -> bool;           (* a === b ;  a !== b is its negation *)
  Math_sqrt : F -> F;
  Math_floor : F -> F;
  Math_max : F -> F -> F;
  Math_min : F -> F -> F
}.

Declare Scope js_scope.
Delimit Scope js_scope with js.
Infix "+" := js_add : js_scope.
Infix "-" := js_sub : js_scope.
Infix "*" := js_mul : js_scope.
Infix "/" := js_div : js_scope.
Infix "<?" := js_lt : js_scope.
Infix "<=?" := js_le : js_scope.
Infix "=?" := js_eq : js_scope.
Notation "a >? b" := (js_lt b a) : js_scope.

Module Game.
Section WithNumber.
Context {F : Type} {NumF : Number F}.
Local Open Scope js_scope.

(** ** Config (tweakable) (lines 47-60) *)

Record Config := {
  playerRadius : F;
  playerSpeed : F;
  fireRate : F;
  bulletSpeed : F;
  bulletRadius : F;
  zombieRadius : F;
  zombieSpeedBase : F;
  zombieSpeedPerLevel : F;
  maxZombies : F;
  damageOnTouch : F;
  startingHP : F
}.

Definition CONFIG : Config := {|
  playerRadius := num 16;
  playerSpeed := num 240;
  fireRate := num 200;
  bulletSpeed := num 800;
  bulletRadius := num 4;
  zombieRadius := num 18;
  zombieSpeedBase := num 50;
  zombieSpeedPerLevel := num 8;
  maxZombies := num 40;
  damageOnTouch := num 20;
  startingHP := num 100
|}.

(** ** Utility helpers (lines 62-71) *)

Record Vec := mkVec { vec_x : F; vec_y : F }.

Definition clamp (v a b : F) : F := Math_max a (Math_min b v).

Definition dist2 (ax ay bx by_ : F) : F :=
  let dx := ax - bx in
  let dy := ay - by_ in
  dx * dx + dy * dy.

Definition length (x y : F) : F := Math_sqrt (x * x + y * y).

Definition normalize (x y : F) : Vec :=
  let len := length x y in
  if len =? num 0 then mkVec (num 0) (num 0)
  else mkVec (x / len) (y / len).

(** [randRange a b] with [u] the value [Math.random()] returns. *)
Definition randRange (u a b : F) : F := a + u * (b - a).

(** ** Entities (lines 73-88) *)

Record Player := mkPlayer {
  player_x : F;
  player_y : F;
  player_vx : F;
  player_vy : F;
  player_radius : F;
  player_hp : F;
  player_lastShot : F
}.

Record Bullet := mkBullet {
  bullet_x : F;
  bullet_y : F;
  bullet_vx : F;
  bullet_vy : F;
  bullet_r : F;
  bullet_life : F
}.

Record Zombie := mkZombie {
  zombie_x : F;
  zombie_y : F;
  zombie_r : F;
  zombie_speed : F;
  zombie_hp : F
}.

Definition makePlayer (x y : F) : Player :=
  mkPlayer x y (num 0) (num 0) (playerRadius CONFIG) (startingHP CONFIG) (num 0).

Definition makeBullet (x y vx vy : F) : Bullet :=
  mkBullet x y vx vy (bulletRadius CONFIG) (num 1800).

(** [u] is the value of the call of [Math.random()] in [makeZombie]. *)
Definition makeZombie (u : F) (x y speed : F) : Zombie :=
  mkZombie x y (zombieRadius CONFIG) speed (num 30 + Math_floor (u * num 20)).

(** ** Game state: the script's global variables (lines 34-45)

    [lastTime] belongs to the host loop and is kept beside the world (see
    [gameLoop]); [keys] and [mouse] are written by the event handlers only and
    are inputs of a frame. *)

Record World := mkWorld {
  running : bool;
  score : F;
  player : Player;
  bullets : list Bullet;
  zombies : list Zombie;
  spawnTimer : F;
  spawnInterval : F;
  difficultyTimer : F
}.

Record Keys := mkKeys { key_w : bool; key_a : bool; key_s : bool; key_d : bool }.

Record Mouse := mkMouse { mouse_x : F; mouse_y : F; mouse_down : bool }.

(** The canvas, as [update] reads it. *)
Record Canvas := mkCanvas {
  canvas_width : F;
  canvas_height : F;
  devicePixelRatio : F
}.

(** [window.devicePixelRatio||1]: the falsy numbers are 0 and NaN. *)
Definition dpr_or_1 (c : Canvas) : F :=
  let d := devicePixelRatio c in
  if (d =? num 0) || negb (d =? d) then num 1 else d.

Definition arena_w (c : Canvas) : F := canvas_width c / dpr_or_1 c.
Definition arena_h (c : Canvas) : F := canvas_height c / dpr_or_1 c.

(** The values of the four calls of [Math.random()] that one run of
    [spawnZombie] makes, in the order of the calls. *)
Record Random := mkRandom {
  rnd_side : F;
  rnd_along : F;
  rnd_speed : F;
  rnd_hp : F
}.

(** What one frame reads from outside the world. *)
Record Frame := mkFrame {
  frame_now : F;
  frame_canvas : Canvas;
  frame_keys : Keys;
  frame_mouse : Mouse;
  frame_random : Random
}.

(** Assignments to one global, or to one field of an entity. *)
Definition set_running (b : bool) (s : World) : World :=
  mkWorld b (score s) (player s) (bullets s) (zombies s)
          (spawnTimer s) (spawnInterval s) (difficultyTimer s).
Definition set_score (v : F) (s : World) : World :=
  mkWorld (running s) v (player s) (bullets s) (zombies s)
          (spawnTimer s) (spawnInterval s) (difficultyTimer s).
Definition set_player (p : Player) (s : World) : World :=
  mkWorld (running s) (score s) p (bullets s) (zombies s)
          (spawnTimer s) (spawnInterval s) (difficultyTimer s).
Definition set_bullets (bs : list Bullet) (s : World) : World :=
  mkWorld (running s) (score s) (player s) bs (zombies s)
          (spawnTimer s) (spawnInterval s) (difficultyTimer s).
Definition set_zombies (zs : list Zombie) (s : World) : World :=
  mkWorld (running s) (score s) (player s) (bullets s) zs
          (spawnTimer s) (spawnInterval s) (difficultyTimer s).
Definition set_spawnTimer (v : F) (s : World) : World :=
  mkWorld (running s) (score s) (player s) (bullets s) (zombies s)
          v (spawnInterval s) (difficultyTimer s).
Definition set_spawnInterval (v : F) (s : World) : World :=
  mkWorld (running s) (score s) (player s) (bullets s) (zombies s)
          (spawnTimer s) v (difficultyTimer s).
Definition set_difficultyTimer (v : F) (s : World) : World :=
  mkWorld (running s) (score s) (player s) (bullets s) (zombies s)
          (spawnTimer s) (spawnInterval s) v.

Definition set_player_xy (x y : F) (p : Player) : Player :=
  mkPlayer x y (player_vx p) (player_vy p) (player_radius p) (player_hp p)
           (player_lastShot p).
Definition set_player_hp (v : F) (p : Player) : Player :=
  mkPlayer (player_x p) (player_y p) (player_vx p) (player_vy p)
           (player_radius p) v (player_lastShot p).
Definition set_player_lastShot (v : F) (p : Player) : Player :=
  mkPlayer (player_x p) (player_y p) (player_vx p) (player_vy p)
           (player_radius p) (player_hp p) v.
Definition set_zombie_xy (x y : F) (z : Zombie) : Zombie :=
  mkZombie x y (zombie_r z) (zombie_speed z) (zombie_hp z).

(** ** Game lifecycle (lines 134-152) *)

Definition resetGameState (c : Canvas) (s : World) : World :=
  mkWorld (running s) (num 0)
          (set_player_hp (startingHP CONFIG)
             (makePlayer (canvas_width c / num 2 / dpr_or_1 c)
                         (canvas_height c / num 2 / dpr_or_1 c)))
          [] [] (num 0) (num 1500) (num 0).

(** [startGame] without its scheduling of [gameLoop]; the value it gives
    [lastTime] is [performance.now()], returned beside the world. *)
Definition startGame (c : Canvas) (performance_now : F) (s : World) : F * World :=
  (performance_now, set_running true (resetGameState c s)).

(** ** Spawning zombies (lines 155-170) *)

Definition spawnZombie (c : Canvas) (rnd : Random) (difficultyLevel : F)
    (s : World) : World :=
  let w := arena_w c in
  let h := arena_h c in
  let side := Math_floor (rnd_side rnd * num 4) in
  let margin := num 20 in
  let xy :=
    if side =? num 0 then (randRange (rnd_along rnd) margin (w - margin), num (-40))
    else if side =? num 1 then (w + num 40, randRange (rnd_along rnd) margin (h - margin))
    else if side =? num 2 then (randRange (rnd_along rnd) margin (w - margin), h + num 40)
    else (num (-40), randRange (rnd_along rnd) margin (h - margin)) in
  let speed := zombieSpeedBase CONFIG + difficultyLevel * zombieSpeedPerLevel CONFIG
               + rnd_speed rnd * num 10 in
  set_zombies (zombies s ++ [makeZombie (rnd_hp rnd) (fst xy) (snd xy) speed]) s.

(** ** Shooting (lines 172-188) *)

Definition tryShoot (mouse : Mouse) (now : F) (s : World) : World :=
  if negb (mouse_down mouse) then s else
  let p := player s in
  let msSince := now - player_lastShot p in
  if msSince <? fireRate CONFIG then s else
  let dx := mouse_x mouse - player_x p in
  let dy := mouse_y mouse - player_y p in
  let n := normalize dx dy in
  let vx := vec_x n * bulletSpeed CONFIG in
  let vy := vec_y n * bulletSpeed CONFIG in
  let b := makeBullet (player_x p + vec_x n * (player_radius p + num 8))
                      (player_y p + vec_y n * (player_radius p + num 8)) vx vy in
  let p1 := set_player_lastShot now p in
  let p2 := set_player_xy (player_x p1 - vec_x n * num 4)
                          (player_y p1 - vec_y n * num 4) p1 in
  set_player p2 (set_bullets (bullets s ++ [b]) s).

(** ** Update loop (lines 190-281)

    [update] is cut along its comments: the player movement and its clamp
    ([movePlayer]), the shooting ([tryShoot]), the loop over the bullets
    ([updateBullets]), the loop over the zombies ([updateZombies]) and the
    spawning logic ([updateSpawn]).  [updateUI] writes to the page only. *)

(** Player movement (WASD), then the player is bound inside the screen
    (lines 196-209). *)
Definition movePlayer (dt : F) (c : Canvas) (keys : Keys) (s : World) : World :=
  let w := arena_w c in
  let h := arena_h c in
  let mx := num 0 in
  let my := num 0 in
  let my := if key_w keys then my - num 1 else my in
  let my := if key_s keys then my + num 1 else my in
  let mx := if key_a keys then mx - num 1 else mx in
  let mx := if key_d keys then mx + num 1 else mx in
  let p := player s in
  let p :=
    if negb (mx =? num 0) || negb (my =? num 0) then
      let n := normalize mx my in
      set_player_xy (player_x p + vec_x n * playerSpeed CONFIG * dt)
                    (player_y p + vec_y n * playerSpeed CONFIG * dt) p
    else p in
  let p :=
    set_player_xy
      (clamp (player_x p) (player_radius p + num 6) (w - player_radius p - num 6))
      (clamp (player_y p) (player_radius p + num 6) (h - player_radius p - num 6))
      p in
  set_player p s.

(** Update bullets (lines 214-224): the body of the loop at index [i], and
    the loop [for(let i = bullets.length-1; i>=0; i--)], [k] being [i+1].
    An index outside the array is never read (see [bullets_loop_app]). *)
Definition bullet_step (dt : F) (b : Bullet) : Bullet :=
  mkBullet (bullet_x b + bullet_vx b * dt) (bullet_y b + bullet_vy b * dt)
           (bullet_vx b) (bullet_vy b) (bullet_r b)
           (bullet_life b - dt * num 1000).

Definition bullet_gone (c : Canvas) (b : Bullet) : bool :=
  let w := arena_w c in
  let h := arena_h c in
  (bullet_life b <=? num 0) || (bullet_x b <? num (-50)) || (bullet_x b >? w + num 50)
  || (bullet_y b <? num (-50)) || (bullet_y b >? h + num 50).

Definition bullets_body (dt : F) (c : Canvas) (i : nat) (bs : list Bullet)
    : list Bullet :=
  match bs !! i with
  | None => bs
  | Some b =>
      let b' := bullet_step dt b in
      let bs' := <[i:=b']> bs in
      if bullet_gone c b' then delete i bs' else bs'
  end.

Fixpoint bullets_loop (dt : F) (c : Canvas) (k : nat) (bs : list Bullet)
    : list Bullet :=
  match k with
  | O => bs
  | S i => bullets_loop dt c i (bullets_body dt c i bs)
  end.

Definition updateBullets (dt : F) (c : Canvas) (s : World) : World :=
  set_bullets (bullets_loop dt c (List.length (bullets s)) (bullets s)) s.

(** Update zombies (lines 226-265).  [zombie_dir] is the [n] of the loop
    body and [zombie_move] the zombie after "move".  In [zombies_body] and
    [bullet_scan] the case [None] is a read outside the array, which these
    loops never do ([zombies_body_length]). *)
Definition zombie_dir (p : Player) (z : Zombie) : Vec :=
  let dx := player_x p - zombie_x z in
  let dy := player_y p - zombie_y z in
  normalize dx dy.

Definition zombie_move (dt : F) (p : Player) (z : Zombie) : Zombie :=
  let n := zombie_dir p z in
  set_zombie_xy (zombie_x z + vec_x n * zombie_speed z * dt)
                (zombie_y z + vec_y n * zombie_speed z * dt) z.

(** The test [d2 < hitDist*hitDist] on the moved zombie. *)
Definition touches (p : Player) (z : Zombie) : bool :=
  let d2 := dist2 (zombie_x z) (zombie_y z) (player_x p) (player_y p) in
  let hitDist := zombie_r z + player_radius p in
  d2 <? hitDist * hitDist.

(** The test [d2bz < (b.r + z.r)*(b.r + z.r)]. *)
Definition hits (b : Bullet) (z : Zombie) : bool :=
  let d2bz := dist2 (bullet_x b) (bullet_y b) (zombie_x z) (zombie_y z) in
  d2bz <? (bullet_r b + zombie_r z) * (bullet_r b + zombie_r z).

(** Bullet collisions with zombie [i]: the loop
    [for(let j = bullets.length-1; j>=0; j--)] with its [break], [k] being
    [j+1]. *)
Fixpoint bullet_scan (i : nat) (z : Zombie) (k : nat) (s : World) : World :=
  match k with
  | O => s
  | S j =>
      match bullets s !! j with
      | None => bullet_scan i z j s
      | Some b =>
          if hits b z then
            set_score (score s + num 10)
              (set_bullets (delete j (bullets s))
                 (set_zombies (delete i (zombies s)) s))
          else bullet_scan i z j s
      end
  end.

Definition zombies_body (dt : F) (i : nat) (s : World) : World :=
  match zombies s !! i with
  | None => s
  | Some z =>
      let p := player s in
      let n := zombie_dir p z in
      let z1 := zombie_move dt p z in
      let s1 := set_zombies (<[i:=z1]> (zombies s)) s in
      if touches p z1 then
        let p' := set_player_hp (player_hp p - damageOnTouch CONFIG) p in
        let z2 := set_zombie_xy (zombie_x z1 - vec_x n * num 15)
                                (zombie_y z1 - vec_y n * num 15) z1 in
        let s2 := set_player p' (set_zombies (delete i (<[i:=z2]> (zombies s1))) s1) in
        if player_hp p' <=? num 0 then set_running false s2 else s2
      else
        bullet_scan i z1 (List.length (bullets s1)) s1
  end.

Fixpoint zombies_loop (dt : F) (k : nat) (s : World) : World :=
  match k with
  | O => s
  | S i => zombies_loop dt i (zombies_body dt i s)
  end.

Definition updateZombies (dt : F) (s : World) : World :=
  zombies_loop dt (List.length (zombies s)) s.

(** Spawning logic and difficulty ramp (lines 267-277). *)
Definition difficultyLevel (difficultyTimer : F) : F :=
  Math_floor (difficultyTimer / num 15000).

Definition desiredMaxZombies (level score : F) : F :=
  clamp (num 5 + level * num 2 + Math_floor (score / num 100)) (num 6)
        (maxZombies CONFIG).

Definition spawn_due (s : World) : bool :=
  (spawnTimer s >? spawnInterval s)
  && (num (Z.of_nat (List.length (zombies s)))
        <? desiredMaxZombies (difficultyLevel (difficultyTimer s)) (score s)).

Definition updateSpawn (dt : F) (c : Canvas) (rnd : Random) (s : World) : World :=
  let s1 := set_spawnTimer (spawnTimer s + dt * num 1000) s in
  let s2 := set_difficultyTimer (difficultyTimer s1 + dt * num 1000) s1 in
  let level := difficultyLevel (difficultyTimer s2) in
  if spawn_due s2 then
    let s3 := set_spawnTimer (num 0) s2 in
    let s4 := set_spawnInterval
                (clamp (num 1000 - level * num 50) (num 380) (num 2000)) s3 in
    spawnZombie c rnd level s4
  else s2.

(** The world before the spawning logic of this frame. *)
Definition update_entities (dt : F) (fr : Frame) (s : World) : World :=
  let c := frame_canvas fr in
  let s1 := movePlayer dt c (frame_keys fr) s in
  let s2 := tryShoot (frame_mouse fr) (frame_now fr) s1 in
  let s3 := updateBullets dt c s2 in
  updateZombies dt s3.

Definition update (dt : F) (fr : Frame) (s : World) : World :=
  updateSpawn dt (frame_canvas fr) (frame_random fr) (update_entities dt fr s).

(** ** Main loop (lines 386-395) *)

(** [if(running){ update(dt, now); }]: the simulation step as its host calls
    it. *)
Definition advance (dt : F) (fr : Frame) (s : World) : World :=
  if running s then update dt fr s else s.

(** [gameLoop] on the pair of [lastTime] and the world; [0.05] is the
    quotient of 5 by 100, rounded as the literal is.  Rendering and the
    request of the next frame change neither. *)
Definition gameLoop (fr : Frame) (g : F * World) : F * World :=
  let now := frame_now fr in
  let dt := Math_min ((now - fst g) / num 1000) (num 5 / num 100) in
  (now, advance dt fr (snd g)).

(** A run of the host loop over the frames [frs], oldest first. *)
Definition run (frs : list Frame) (g : F * World) : F * World :=
  fold_left (fun g fr => gameLoop fr g) frs g.

End WithNumber.
End Game.

(** ** The page around the simulation

    The canvas setup (lines 13-26) and the input handling (lines 90-132).
    The handlers write the globals [keys], [mouse] and, through [startGame],
    [lastTime] and the world; what they read of an event is an argument. *)

Module Page.
Import Game.
Section WithNumber.
Context {F : Type} {NumF : Number F}.
Local Open Scope js_scope.
Local Abbreviation Canvas := (@Game.Canvas F).
Local Abbreviation Keys := Game.Keys.
Local Abbreviation Mouse := (@Game.Mouse F).
Local Abbreviation World := (@Game.World F).
Local Abbreviation Random := (@Game.Random F).
Local Abbreviation Frame := (@Game.Frame F).

(** [a || b] on numbers: the falsy numbers are 0 and NaN. *)
Definition or_else (a b : F) : F :=
  if (a =? num 0) || negb (a =? a) then b else a.

(** What [canvas.getBoundingClientRect()] returns. *)
Record Rect := mkRect {
  rect_left : F;
  rect_top : F;
  rect_width : F;
  rect_height : F
}.

(** [resizeCanvas] (lines 16-22): the new width and height of the canvas.
    The scale [dpr] also goes to the drawing context, which the simulation
    does not read. *)
Definition resizeCanvas (rect : Rect) (c : Canvas) : Canvas :=
  let dpr := Math_min (or_else (devicePixelRatio c) (num 1)) (num 2) in
  mkCanvas (Math_floor (rect_width rect * dpr))
           (Math_floor (or_else (rect_height rect * dpr) (num 640 * dpr)))
           (devicePixelRatio c).

(** The globals the handlers and the loop share.  Of [keys] only the fields
    [w], [a], [s] and [d] are ever written or read. *)
Record Globals := mkGlobals {
  g_keys : Keys;
  g_mouse : Mouse;
  g_lastTime : F;
  g_world : World
}.

Definition set_keys (k : Keys) (gl : Globals) : Globals :=
  mkGlobals k (g_mouse gl) (g_lastTime gl) (g_world gl).
Definition set_mouse (m : Mouse) (gl : Globals) : Globals :=
  mkGlobals (g_keys gl) m (g_lastTime gl) (g_world gl).

Definition set_key_w (v : bool) (k : Keys) : Keys := mkKeys v (key_a k) (key_s k) (key_d k).
Definition set_key_a (v : bool) (k : Keys) : Keys := mkKeys (key_w k) v (key_s k) (key_d k).
Definition set_key_s (v : bool) (k : Keys) : Keys := mkKeys (key_w k) (key_a k) v (key_d k).
Definition set_key_d (v : bool) (k : Keys) : Keys := mkKeys (key_w k) (key_a k) (key_s k) v.

(** The four tests on [e.key] that [keydown] and [keyup] share. *)
Definition write_keys (key : string) (v : bool) (k : Keys) : Keys :=
  let k := if (key =? "w")%string || (key =? "W")%string || (key =? "ArrowUp")%string
           then set_key_w v k else k in
  let k := if (key =? "a")%string || (key =? "A")%string || (key =? "ArrowLeft")%string
           then set_key_a v k else k in
  let k := if (key =? "s")%string || (key =? "S")%string || (key =? "ArrowDown")%string
           then set_key_s v k else k in
  let k := if (key =? "d")%string || (key =? "D")%string || (key =? "ArrowRight")%string
           then set_key_d v k else k in
  k.

(** The [keydown] handler (lines 91-98); [performance_now] is the value
    [startGame] reads if it runs. *)
Definition keydown (key : string) (c : Canvas) (performance_now : F)
    (gl : Globals) : Globals :=
  let gl := set_keys (write_keys key true (g_keys gl)) gl in
  if (key =? "r")%string || (key =? "R")%string then
    if negb (running (g_world gl)) then
      let g := startGame c performance_now (g_world gl) in
      mkGlobals (g_keys gl) (g_mouse gl) (fst g) (snd g)
    else gl
  else gl.

(** The [keyup] handler (lines 99-104). *)
Definition keyup (key : string) (gl : Globals) : Globals :=
  set_keys (write_keys key false (g_keys gl)) gl.

(** The mouse handlers (lines 105-111). *)
Definition mousemove (clientX clientY : F) (rect : Rect) (gl : Globals) : Globals :=
  set_mouse (mkMouse (clientX - rect_left rect) (clientY - rect_top rect)
                     (mouse_down (g_mouse gl))) gl.
Definition mousedown (gl : Globals) : Globals :=
  set_mouse (mkMouse (mouse_x (g_mouse gl)) (mouse_y (g_mouse gl)) true) gl.
Definition mouseup (gl : Globals) : Globals :=
  set_mouse (mkMouse (mouse_x (g_mouse gl)) (mouse_y (g_mouse gl)) false) gl.

(** The touch handlers (lines 114-132).  [touches] lists the points
    [(clientX, clientY)] of [ev.touches]; reading [ev.touches[0].clientX] of
    an empty list throws, before anything is written: [None]. *)
Definition touchstart (touches : list (F * F)) (rect : Rect) (gl : Globals)
    : option Globals :=
  match touches with
  | [] => None
  | t :: _ =>
      Some (set_mouse (mkMouse (fst t - rect_left rect) (snd t - rect_top rect) true) gl)
  end.
Definition touchmove (touches : list (F * F)) (rect : Rect) (gl : Globals)
    : option Globals :=
  match touches with
  | [] => None
  | t :: _ =>
      Some (set_mouse (mkMouse (fst t - rect_left rect) (snd t - rect_top rect)
                               (mouse_down (g_mouse gl))) gl)
  end.
Definition touchend (gl : Globals) : Globals :=
  set_mouse (mkMouse (mouse_x (g_mouse gl)) (mouse_y (g_mouse gl)) false) gl.

(** [gameLoop] as it reads the globals at the time [now] of a frame. *)
Definition frame_of (now : F) (c : Canvas) (rnd : Random) (gl : Globals) : Frame :=
  mkFrame now c (g_keys gl) (g_mouse gl) rnd.

Definition tick (now : F) (c : Canvas) (rnd : Random) (gl : Globals) : Globals :=
  let g := gameLoop (frame_of now c rnd gl) (g_lastTime gl, g_world gl) in
  mkGlobals (g_keys gl) (g_mouse gl) (fst g) (snd g).

End WithNumber.
End Page.

(** ** The two carriers *)

(** *** Real numbers *)

Definition Rltb (a b : R) : bool := if Rlt_dec a b then true else false.
Definition Rleb (a b : R) : bool := if Rle_dec a b then true else false.
Definition Reqb (a b : R) : bool := if Req_dec_T a b then true else false.

#[export] Instance R_Number : Number R := {|
  num := IZR;
  js_add := Rplus;
  js_sub := Rminus;
  js_mul := Rmult;
  js_div := Rdiv;
  js_lt := Rltb;
  js_le := Rleb;
  js_eq := Reqb;
  Math_sqrt := R_sqrt.sqrt;
  Math_floor := fun x => IZR (Int_part x);
  Math_max := Rmax;
  Math_min := Rmin
|}.

(** *** IEEE 754 binary64 numbers *)

Module Float64.

(** The float of an integer below 2^53 in absolute value (exact). *)
Definition of_Z (z : Z) : float :=
  match z with
  | Z0 => PrimFloat.zero
  | Zpos _ => PrimFloat.of_uint63 (Uint63.of_Z z)
  | Zneg p => PrimFloat.opp (PrimFloat.of_uint63 (Uint63.of_Z (Zpos p)))
  end.

(** [Math.floor]: a float with a non-negative exponent, a zero, an infinity
    and NaN are their own floor; otherwise the signed mantissa is shifted
    right, which rounds towards minus infinity. *)
Definition floor (x : float) : float :=
  match FloatOps.Prim2SF x with
  | SpecFloat.S754_finite s m e =>
      if (0 <=? e)%Z then x
      else of_Z (Z.shiftl (if s then Zneg m else Zpos m) e)
  | _ => x
  end.

(** [Math.max] and [Math.min]: NaN if an argument is NaN, and -0 is below
    +0. *)
Definition max (a b : float) : float :=
  if PrimFloat.is_nan a || PrimFloat.is_nan b then PrimFloat.nan
  else if PrimFloat.ltb a b then b
  else if PrimFloat.ltb b a then a
  else if PrimFloat.get_sign a then b else a.

Definition min (a b : float) : float :=
  if PrimFloat.is_nan a || PrimFloat.is_nan b then PrimFloat.nan
  else if PrimFloat.ltb a b then a
  else if PrimFloat.ltb b a then b
  else if PrimFloat.get_sign a then a else b.

End Float64.

#[export] Instance float_Number : Number float := {|
  num := Float64.of_Z;
  js_add := PrimFloat.add;
  js_sub := PrimFloat.sub;
  js_mul := PrimFloat.mul;
  js_div := PrimFloat.div;
  js_lt := PrimFloat.ltb;
  js_le := PrimFloat.leb;
  js_eq := PrimFloat.eqb;
  Math_sqrt := PrimFloat.sqrt;
  Math_floor := Float64.floor;
  Math_max := Float64.max;
  Math_min := Float64.min
|}.

Import Game.
Import Page.

(** * Notions used in the statements *)

Section Notions.
Context {F : Type} {NumF : Number F}.
Local Open Scope js_scope.
Implicit Types (s : @World F) (b : @Bullet F) (z : @Zombie F) (p : @Player F).
Implicit Types (c : @Canvas F) (fr : @Frame F) (dt : F).

(** The world after bullet [j] killed zombie [i]. *)
Definition killed (i j : nat) s : World :=
  set_score (score s + num 10)
    (set_bullets (delete j (bullets s)) (set_zombies (delete i (zombies s)) s)).

(** The world after zombie [i] touched the player. *)
Definition touched (i : nat) s : World :=
  let p' := set_player_hp (player_hp (player s) - damageOnTouch CONFIG) (player s) in
  let s2 := set_player p' (set_zombies (delete i (zombies s)) s) in
  if player_hp p' <=? num 0 then set_running false s2 else s2.

(** The world with zombie [i] moved, before its tests. *)
Definition moved dt (i : nat) z s : World :=
  set_zombies (<[i:=zombie_move dt (player s) z]> (zombies s)) s.

(** Two players that differ in their hit points only, and what the zombie
    loop never writes. *)
Definition same_player_but_hp p p' : Prop :=
  player_x p' = player_x p ∧ player_y p' = player_y p
  ∧ player_vx p' = player_vx p ∧ player_vy p' = player_vy p
  ∧ player_radius p' = player_radius p ∧ player_lastShot p' = player_lastShot p.

Definition zombies_frame s s' : Prop :=
  same_player_but_hp (player s) (player s')
  ∧ spawnTimer s' = spawnTimer s ∧ spawnInterval s' = spawnInterval s
  ∧ difficultyTimer s' = difficultyTimer s
  ∧ bullets s' `sublist_of` bullets s
  ∧ (running s = false → running s' = false).

(** The zombies of [zs] that touch the player [p] once they have moved. *)
Definition contacts_among dt p (zs : list Zombie) : nat :=
  List.length (filter (λ z, touches p (zombie_move dt p z) = true) zs).

(** The world that enters the zombie loop of a frame. *)
Definition before_zombies dt fr s : World :=
  updateBullets dt (frame_canvas fr)
    (tryShoot (frame_mouse fr) (frame_now fr)
       (movePlayer dt (frame_canvas fr) (frame_keys fr) s)).

(** The contacts of a frame: the zombies that touch the player in its zombie
    loop. *)
Definition contacts dt fr s : nat :=
  contacts_among dt (player (before_zombies dt fr s)) (zombies (before_zombies dt fr s)).

(** The kills of a frame: the bullets that its zombie loop removes, one with
    each zombie it kills. *)
Definition kills dt fr s : nat :=
  List.length (bullets (before_zombies dt fr s)) - List.length (bullets (update dt fr s)).

(** The [dt] of [gameLoop], and the contacts of each frame of a run. *)
Definition frame_dt fr (g : F * @World F) : F :=
  Math_min ((frame_now fr - fst g) / num 1000) (num 5 / num 100).

Definition frame_contacts fr (g : F * @World F) : nat :=
  if running (snd g) then contacts (frame_dt fr g) fr (snd g) else 0%nat.

Fixpoint run_contacts (frs : list Frame) (g : F * @World F) : list nat :=
  match frs with
  | [] => []
  | fr :: frs => frame_contacts fr g :: run_contacts frs (gameLoop fr g)
  end.

(** A zombie that neither touches the player [p] nor overlaps a bullet of
    [bs]. *)
Definition apart p (bs : list Bullet) z : Prop :=
  touches p z = false ∧ ∀ b, b ∈ bs → hits b z = false.

(** The names of [e.key] that each of the four tests of the key handlers
    accepts, and the flag of [keys] that the test writes. *)
Definition key_names : list (list string) :=
  [["w"; "W"; "ArrowUp"]; ["a"; "A"; "ArrowLeft"];
   ["s"; "S"; "ArrowDown"]; ["d"; "D"; "ArrowRight"]]%string.

Definition key_flag (i : nat) (k : Keys) : bool :=
  match i with
  | 0 => key_w k
  | 1 => key_a k
  | 2 => key_s k
  | _ => key_d k
  end.

End Notions.

Section NotionsOnReals.
Local Open Scope R_scope.

(** The player's disc, with the margin of 6, lies inside the arena. *)
Definition in_bounds (c : @Canvas R) (p : @Player R) : Prop :=
  player_radius p + 6 <= player_x p <= arena_w c - player_radius p - 6
  ∧ player_radius p + 6 <= player_y p <= arena_h c - player_radius p - 6.

(** No event of the frame fires: the player is within the bounds, no shot is
    fired, no bullet is expired or outside, no zombie touches the player or
    overlaps a bullet, and no spawn is due. *)
Definition uneventful (fr : @Frame R) (s : @World R) : Prop :=
  in_bounds (frame_canvas fr) (player s)
  ∧ (mouse_down (frame_mouse fr) = false
     ∨ frame_now fr - player_lastShot (player s) < fireRate CONFIG)
  ∧ (∀ b, b ∈ bullets s → bullet_gone (frame_canvas fr) b = false)
  ∧ (∀ z, z ∈ zombies s → touches (player s) z = false)
  ∧ (∀ z b, z ∈ zombies s → b ∈ bullets s → hits b z = false)
  ∧ spawn_due s = false.

End NotionsOnReals.

(** ** Scenarios on IEEE numbers

    Worlds and frames on which the definitions are run.  The canvas is 800
    by 640 at a pixel ratio of 1, and a frame lasts 1/64 s. *)

Module Scenario.
Local Open Scope float_scope.

Definition canvas : Canvas := mkCanvas 800 640 1.
Definition dt : float := 0.015625.
Definition no_keys : Keys := mkKeys false false false false.
Definition mouse_up : @Mouse float := mkMouse 0 0 false.
Definition no_spawn : @Random float := mkRandom 0 0 0 0.
Definition idle (now : float) : Frame := mkFrame now canvas no_keys mouse_up no_spawn.

(** Two zombies next to a player with 20 hit points left. *)
Definition zombie_left : Zombie := mkZombie 90 100 18 50 30.
Definition zombie_right : Zombie := mkZombie 110 100 18 50 30.
Definition last_stand : World :=
  mkWorld true 0 (mkPlayer 100 100 0 0 16 20 0) []
          [zombie_left; zombie_right] 0 1500 0.

(** A zombie far from the player, between two bullets that both overlap
    it. *)
Definition bullet_low : Bullet := mkBullet 295 100 800 0 4 1800.
Definition bullet_high : Bullet := mkBullet 305 100 800 0 4 1800.
Definition zombie_far : Zombie := mkZombie 300 100 18 50 30.
Definition crossfire : World :=
  mkWorld true 0 (mkPlayer 100 100 0 0 16 100 0) [bullet_low; bullet_high]
          [zombie_far] 0 1500 0.

(** The pointer held down on the player's centre, and to its right. *)
Definition fresh : World :=
  mkWorld true 0 (mkPlayer 100 100 0 0 16 100 0) [] [] 0 1500 0.
Definition aim_on_player : @Mouse float := mkMouse 100 100 true.
Definition aim_east : @Mouse float := mkMouse 200 100 true.
Definition shoot (m : Mouse) : Frame := mkFrame 1000 canvas no_keys m no_spawn.

(** The player at the left bound. *)
Definition cornered : World :=
  mkWorld true 0 (mkPlayer 22 100 0 0 16 100 0) [] [] 0 1500 0.

(** Five zombies in a line, 10 apart, that walk 10 a frame: one reaches the
    player in each of five frames of 15.625 ms. *)
Definition queue : World :=
  mkWorld true 0 (mkPlayer 400 300 0 0 16 100 0) []
          [mkZombie 439 300 18 640 30; mkZombie 449 300 18 640 30;
           mkZombie 459 300 18 640 30; mkZombie 469 300 18 640 30;
           mkZombie 479 300 18 640 30] 0 1500 0.
Definition four_frames : list Frame := [idle 15.625; idle 31.25; idle 46.875; idle 62.5].
Definition five_frames : list Frame := four_frames ++ [idle 78.125].

(** A bullet at the player's position that flies towards a zombie standing
    50 away, the way of a bullet in 1/16 s. *)
Definition duel : World :=
  mkWorld true 0 (mkPlayer 100 100 0 0 16 100 0) [mkBullet 100 100 800 0 4 1800]
          [mkZombie 150 100 18 0 30] 0 1500 0.

(** The globals of a fresh round at rest. *)
Definition at_rest : Globals := mkGlobals no_keys mouse_up 0 fresh.

End Scenario.

(** ** Scenarios on real numbers *)

Module Ideal.
Local Open Scope R_scope.

Definition canvas : Canvas := mkCanvas 800 640 1.
Definition no_keys : Keys := mkKeys false false false false.
Definition no_spawn : @Random R := mkRandom 0 0 0 0.

(** A fresh round, the player at (100, 100), and the pointer held down on
    the player's centre. *)
Definition fresh : World :=
  mkWorld true 0 (mkPlayer 100 100 0 0 16 100 0) [] [] 0 1500 0.
Definition aim_on_player : Mouse := mkMouse 100 100 true.

(** The player at the left bound, shooting to the right. *)
Definition cornered : World :=
  mkWorld true 0 (mkPlayer 22 100 0 0 16 100 0) [] [] 0 1500 0.
Definition aim_right : Mouse := mkMouse 122 100 true.
Definition shot_at_the_edge : Frame :=
  mkFrame 1000 canvas no_keys aim_right no_spawn.

(** The pointer held down to the right of the player of [fresh]. *)
Definition aim_east : Mouse := mkMouse 200 100 true.
Definition trigger_held : Frame := mkFrame 1000 canvas no_keys aim_east no_spawn.

(** A bullet in flight and a zombie, far from the player and from each
    other; the pointer is up. *)
Definition standoff : World :=
  mkWorld true 30 (mkPlayer 100 100 0 0 16 80 0)
          [mkBullet 400 300 800 0 4 900] [mkZombie 700 500 18 50 30] 0 1500 0.
Definition mouse_up : Mouse := mkMouse 0 0 false.
Definition idle : Frame := mkFrame 1000 canvas no_keys mouse_up no_spawn.

(** Five zombies on a player with all its hit points. *)
Definition zombie_on_player : Zombie := mkZombie 100 100 18 50 30.
Definition swarm : World :=
  mkWorld true 0 (mkPlayer 100 100 0 0 16 100 0) []
          [zombie_on_player; zombie_on_player; zombie_on_player;
           zombie_on_player; zombie_on_player] 0 1500 0.

(** A round whose spawn timer has passed the spawn interval. *)
Definition overdue : World :=
  mkWorld true 0 (mkPlayer 100 100 0 0 16 100 0) [] [] 1600 1500 0.

(** The box of the canvas on the page, and the globals of a fresh round. *)
Definition box : Rect := mkRect 0 0 800 640.
Definition at_rest : Globals := mkGlobals no_keys mouse_up 0 fresh.

End Ideal.

(** * Properties of the control flow, for every carrier *)

Section Control.
Context {F : Type} {NumF : Number F}.
Local Open Scope js_scope.
Implicit Types (s : @World F) (b : @Bullet F) (z : @Zombie F) (p : @Player F).
Implicit Types (c : @Canvas F) (fr : @Frame F) (dt : F).

(** ** The bullet loop *)

(** The loop over the indices below [length pre] steps every bullet of [pre]
    and keeps those that are not gone, in their order; what lies behind is
    not touched. *)
Lemma bullets_loop_app dt c (pre suf : list Bullet) :
  bullets_loop dt c (List.length pre) (pre ++ suf)
  = filter (λ b, bullet_gone c b = false) (bullet_step dt <$> pre) ++ suf.
Proof.
  revert suf. induction pre as [|b pre IH] using rev_ind; intros suf; [done|].
  rewrite length_app, Nat.add_1_r. cbn [bullets_loop]. unfold bullets_body.
  rewrite <- app_assoc. cbn [app].
  rewrite list_lookup_middle by done.
  replace (<[List.length pre:=bullet_step dt b]> (pre ++ b :: suf))
    with (pre ++ bullet_step dt b :: suf)
    by (rewrite insert_app_r_alt, Nat.sub_diag by lia; done).
  rewrite fmap_app, filter_app. cbn [fmap list_fmap].
  destruct (bullet_gone c (bullet_step dt b)) eqn:Hgone.
  - rewrite delete_middle, IH.
    rewrite filter_cons_False, filter_nil, app_nil_r by congruence. done.
  - rewrite IH, filter_cons_True, filter_nil, <- app_assoc by done. done.
Qed.

Lemma updateBullets_spec dt c s :
  bullets (updateBullets dt c s)
  = filter (λ b, bullet_gone c b = false) (bullet_step dt <$> bullets s).
Proof.
  unfold updateBullets. cbn [bullets set_bullets].
  rewrite <- (app_nil_r (bullets s)) at 2.
  rewrite bullets_loop_app, app_nil_r. done.
Qed.

(** ** The scan of the bullets for one zombie *)

Lemma bullet_scan_miss i z k s :
  (∀ j b, j < k → bullets s !! j = Some b → hits b z = false) →
  bullet_scan i z k s = s.
Proof.
  induction k as [|k IH]; intros Hmiss; cbn [bullet_scan]; [done|].
  destruct (bullets s !! k) as [b|] eqn:Hk.
  - rewrite (Hmiss k b) by (done || lia). apply IH. intros j b' ?. apply Hmiss. lia.
  - apply IH. intros j b' ?. apply Hmiss. lia.
Qed.

Lemma bullet_scan_hit i z k s j b :
  j < k → bullets s !! j = Some b → hits b z = true →
  (∀ j' b', j < j' → j' < k → bullets s !! j' = Some b' → hits b' z = false) →
  bullet_scan i z k s = killed i j s.
Proof.
  induction k as [|k IH]; intros Hj Hb Hhit Hlater; [lia|].
  cbn [bullet_scan]. destruct (decide (j = k)) as [->|Hne].
  - rewrite Hb, Hhit. done.
  - assert (bullet_scan i z k s = killed i j s) as Hk.
    { apply IH; [lia|done..|]. intros j' b' ? ?. apply Hlater; lia. }
    destruct (bullets s !! k) as [b'|] eqn:Hbk; [|done].
    rewrite (Hlater k b') by (done || lia). done.
Qed.

(** The scan leaves the world as it is, or removes the overlapping bullet of
    the greatest index together with the zombie. *)
Lemma bullet_scan_cases i z k s :
  ((∀ j b, j < k → bullets s !! j = Some b → hits b z = false)
   ∧ bullet_scan i z k s = s)
  ∨ (∃ j b, j < k ∧ bullets s !! j = Some b ∧ hits b z = true
     ∧ (∀ j' b', j < j' → j' < k → bullets s !! j' = Some b' → hits b' z = false)
     ∧ bullet_scan i z k s = killed i j s).
Proof.
  induction k as [|k IH].
  - left. split; [intros; lia|done].
  - destruct (bullets s !! k) as [b|] eqn:Hk.
    + destruct (hits b z) eqn:Hhit.
      * right. exists k, b. split_and!; [lia|done..| |].
        { intros; lia. }
        { cbn [bullet_scan]. rewrite Hk, Hhit. done. }
      * destruct IH as [[Hmiss Heq]|(j & b' & ? & ? & ? & Hlater & Heq)].
        { left. split.
          - intros j b' Hj Hb. destruct (decide (j = k)) as [->|]; [congruence|].
            apply (Hmiss j); [lia|done].
          - cbn [bullet_scan]. rewrite Hk, Hhit. done. }
        { right. exists j, b'. split_and!; [lia|done..| |].
          - intros j' b'' ? ? Hb''. destruct (decide (j' = k)) as [->|]; [congruence|].
            apply (Hlater j'); [lia..|done].
          - cbn [bullet_scan]. rewrite Hk, Hhit. done. }
    + destruct IH as [[Hmiss Heq]|(j & b' & ? & ? & ? & Hlater & Heq)].
      { left. split.
        - intros j b' Hj Hb. destruct (decide (j = k)) as [->|]; [congruence|].
          apply (Hmiss j); [lia|done].
        - cbn [bullet_scan]. rewrite Hk. done. }
      { right. exists j, b'. split_and!; [lia|done..| |].
        - intros j' b'' ? ? Hb''. destruct (decide (j' = k)) as [->|]; [congruence|].
          apply (Hlater j'); [lia..|done].
        - cbn [bullet_scan]. rewrite Hk. done. }
Qed.

Lemma bullet_scan_set_running r i z k s :
  bullet_scan i z k (set_running r s) = set_running r (bullet_scan i z k s).
Proof.
  induction k as [|k IH]; cbn [bullet_scan]; [done|].
  cbn [bullets set_running] in *.
  destruct (bullets s !! k) as [b|]; [|done].
  destruct (hits b z); done.
Qed.

(** ** One zombie *)

Lemma delete_insert_same {A} (l : list A) i x : delete i (<[i:=x]> l) = delete i l.
Proof.
  revert i. induction l as [|y l IH]; intros [|i]; cbn; [done..|].
  f_equal. apply IH.
Qed.

Lemma zombies_body_touch dt i z s :
  zombies s !! i = Some z →
  touches (player s) (zombie_move dt (player s) z) = true →
  zombies_body dt i s = touched i s.
Proof.
  intros Hz Ht. unfold zombies_body, touched. rewrite Hz. cbn zeta. rewrite Ht.
  cbn [zombies set_zombies player set_player player_hp set_player_hp].
  rewrite !delete_insert_same. done.
Qed.

Lemma zombies_body_scan dt i z s :
  zombies s !! i = Some z →
  touches (player s) (zombie_move dt (player s) z) = false →
  zombies_body dt i s
  = bullet_scan i (zombie_move dt (player s) z) (List.length (bullets s)) (moved dt i z s).
Proof.
  intros Hz Ht. unfold zombies_body, moved. rewrite Hz. cbn zeta. rewrite Ht. done.
Qed.

Lemma zombies_body_none dt i s : zombies s !! i = None → zombies_body dt i s = s.
Proof. intros Hz. unfold zombies_body. rewrite Hz. done. Qed.

Lemma killed_moved dt i j z s : killed i j (moved dt i z s) = killed i j s.
Proof.
  unfold killed, moved. cbn [zombies set_zombies score bullets].
  rewrite delete_insert_same. done.
Qed.

(** The four ways through the body of the zombie loop. *)
Lemma zombies_body_cases dt i s :
  (zombies s !! i = None ∧ zombies_body dt i s = s)
  ∨ (∃ z, zombies s !! i = Some z
       ∧ touches (player s) (zombie_move dt (player s) z) = true
       ∧ zombies_body dt i s = touched i s)
  ∨ (∃ z, zombies s !! i = Some z
       ∧ touches (player s) (zombie_move dt (player s) z) = false
       ∧ (∀ j b, bullets s !! j = Some b → hits b (zombie_move dt (player s) z) = false)
       ∧ zombies_body dt i s = moved dt i z s)
  ∨ (∃ z j b, zombies s !! i = Some z
       ∧ touches (player s) (zombie_move dt (player s) z) = false
       ∧ bullets s !! j = Some b
       ∧ hits b (zombie_move dt (player s) z) = true
       ∧ (∀ j' b', j < j' → bullets s !! j' = Some b'
                   → hits b' (zombie_move dt (player s) z) = false)
       ∧ zombies_body dt i s = killed i j s).
Proof.
  destruct (zombies s !! i) as [z|] eqn:Hz.
  2:{ left. split; [done|]. by apply zombies_body_none. }
  right. destruct (touches (player s) (zombie_move dt (player s) z)) eqn:Ht.
  { left. exists z. split_and!; [done..|]. by apply (zombies_body_touch dt i z). }
  right. rewrite (zombies_body_scan dt i z s) by done.
  destruct (bullet_scan_cases i (zombie_move dt (player s) z)
              (List.length (bullets s)) (moved dt i z s))
    as [[Hmiss ->]|(j & b & Hj & Hb & Hhit & Hlater & ->)].
  - left. exists z. split_and!; [done..| |done].
    intros j b Hb. apply (Hmiss j b); [|done].
    by apply lookup_lt_Some in Hb.
  - right. exists z, j, b. split_and!; [done..| |].
    + intros j' b' ? Hb'. apply (Hlater j' b'); [done| |done].
      by apply lookup_lt_Some in Hb'.
    + apply killed_moved.
Qed.

Lemma zombies_body_set_running_false dt i s :
  zombies_body dt i (set_running false s) = set_running false (zombies_body dt i s).
Proof.
  unfold zombies_body. cbn [zombies set_running player bullets].
  destruct (zombies s !! i) as [z|]; [|done]. cbn zeta.
  destruct (touches (player s) (zombie_move dt (player s) z)).
  - cbn [player set_zombies set_player player_hp set_player_hp].
    destruct (_ <=? _); done.
  - rewrite <- bullet_scan_set_running. done.
Qed.

Lemma zombies_loop_set_running_false dt k s :
  zombies_loop dt k (set_running false s) = set_running false (zombies_loop dt k s).
Proof.
  revert s. induction k as [|k IH]; intros s; cbn [zombies_loop]; [done|].
  rewrite zombies_body_set_running_false. apply IH.
Qed.

Lemma zombies_frame_refl s : zombies_frame s s.
Proof. unfold zombies_frame, same_player_but_hp. split_and!; done. Qed.

Lemma zombies_frame_trans s1 s2 s3 :
  zombies_frame s1 s2 → zombies_frame s2 s3 → zombies_frame s1 s3.
Proof.
  unfold zombies_frame, same_player_but_hp.
  intros (Hp & ? & ? & ? & ? & ?) (Hp' & ? & ? & ? & ? & ?).
  destruct Hp as (? & ? & ? & ? & ? & ?), Hp' as (? & ? & ? & ? & ? & ?).
  split_and!; try congruence; [by etrans|auto].
Qed.

Lemma zombies_body_frame dt i s : zombies_frame s (zombies_body dt i s).
Proof.
  destruct (zombies_body_cases dt i s)
    as [[_ ->]|[(z & _ & _ & ->)|[(z & _ & _ & _ & ->)|(z & j & b & _ & _ & _ & _ & _ & ->)]]].
  - apply zombies_frame_refl.
  - unfold touched, zombies_frame, same_player_but_hp. cbn zeta.
    destruct (_ <=? _); cbn; split_and!; done.
  - unfold moved, zombies_frame, same_player_but_hp. cbn. split_and!; done.
  - unfold killed, zombies_frame, same_player_but_hp. cbn.
    split_and!; try done. apply sublist_delete.
Qed.

Lemma zombies_loop_frame dt k s : zombies_frame s (zombies_loop dt k s).
Proof.
  revert s. induction k as [|k IH]; intros s; cbn [zombies_loop].
  - apply zombies_frame_refl.
  - eapply zombies_frame_trans; [apply zombies_body_frame|apply IH].
Qed.

(** What the other parts of [update] never write. *)
Lemma updateSpawn_keeps dt c rnd s :
  let s' := updateSpawn dt c rnd s in
  running s' = running s ∧ score s' = score s ∧ player s' = player s
  ∧ bullets s' = bullets s.
Proof. cbn zeta. unfold updateSpawn. cbn zeta. destruct (spawn_due _); cbn; done. Qed.

Lemma movePlayer_keeps dt c keys s :
  let s' := movePlayer dt c keys s in
  running s' = running s ∧ score s' = score s ∧ bullets s' = bullets s
  ∧ zombies s' = zombies s ∧ spawnTimer s' = spawnTimer s
  ∧ spawnInterval s' = spawnInterval s ∧ difficultyTimer s' = difficultyTimer s
  ∧ player_radius (player s') = player_radius (player s)
  ∧ player_hp (player s') = player_hp (player s)
  ∧ player_lastShot (player s') = player_lastShot (player s).
Proof. cbn zeta. unfold movePlayer. cbn zeta. destruct (_ || _); cbn; done. Qed.

Lemma tryShoot_keeps mouse now s :
  let s' := tryShoot mouse now s in
  running s' = running s ∧ score s' = score s
  ∧ zombies s' = zombies s ∧ spawnTimer s' = spawnTimer s
  ∧ spawnInterval s' = spawnInterval s ∧ difficultyTimer s' = difficultyTimer s
  ∧ player_radius (player s') = player_radius (player s)
  ∧ player_hp (player s') = player_hp (player s).
Proof.
  cbn zeta. unfold tryShoot. destruct (negb _); [done|]. cbn zeta.
  destruct (_ <? _); cbn; done.
Qed.

(** After the shot of the frame, only the hit points of the player change. *)
Lemma update_player dt fr s :
  same_player_but_hp
    (player (tryShoot (frame_mouse fr) (frame_now fr)
               (movePlayer dt (frame_canvas fr) (frame_keys fr) s)))
    (player (update dt fr s)).
Proof.
  unfold update.
  destruct (updateSpawn_keeps dt (frame_canvas fr) (frame_random fr)
              (update_entities dt fr s)) as (_ & _ & -> & _).
  unfold update_entities. cbn zeta. unfold updateZombies.
  match goal with
  | |- context [zombies_loop dt ?k ?s0] =>
      destruct (zombies_loop_frame dt k s0) as (Hp & _)
  end.
  exact Hp.
Qed.

(** The zombie loop reads inside the array: the iteration at index [k]
    leaves at least [k] zombies, so that index [k - 1] exists when it is
    read. *)
Lemma zombies_body_length dt k s :
  k < List.length (zombies s) → k ≤ List.length (zombies (zombies_body dt k s)).
Proof.
  intros Hk.
  destruct (zombies_body_cases dt k s)
    as [[_ ->]|[(z & _ & _ & ->)|[(z & _ & _ & _ & ->)|(z & j & b & _ & _ & _ & _ & _ & ->)]]].
  - lia.
  - unfold touched. cbn zeta.
    destruct (_ <=? _); cbn; rewrite length_delete by (by apply lookup_lt_is_Some); lia.
  - unfold moved. cbn. rewrite length_insert. lia.
  - unfold killed. cbn. rewrite length_delete by (by apply lookup_lt_is_Some). lia.
Qed.

(** The zombie loop only removes zombies. *)
Lemma zombies_loop_length dt k s :
  List.length (zombies (zombies_loop dt k s)) ≤ List.length (zombies s).
Proof.
  revert s. induction k as [|k IH]; intros s; cbn [zombies_loop]; [done|].
  etrans; [apply IH|].
  destruct (zombies_body_cases dt k s)
    as [[_ ->]|[(z & _ & _ & ->)|[(z & _ & _ & _ & ->)|(z & j & b & _ & _ & _ & _ & _ & ->)]]].
  - done.
  - unfold touched. cbn zeta. destruct (_ <=? _); cbn; apply sublist_length, sublist_delete.
  - unfold moved. cbn. by rewrite length_insert.
  - unfold killed. cbn. apply sublist_length, sublist_delete.
Qed.

(** ** Contacts and kills of a frame *)

Lemma before_zombies_keeps_zombies dt fr s :
  zombies (before_zombies dt fr s) = zombies s.
Proof.
  unfold before_zombies.
  destruct (movePlayer_keeps dt (frame_canvas fr) (frame_keys fr) s)
    as (_ & _ & _ & Hz & _).
  destruct (tryShoot_keeps (frame_mouse fr) (frame_now fr)
              (movePlayer dt (frame_canvas fr) (frame_keys fr) s))
    as (_ & _ & Hz' & _).
  cbn [updateBullets zombies set_bullets]. congruence.
Qed.

Lemma update_entities_eq dt fr s :
  update_entities dt fr s = updateZombies dt (before_zombies dt fr s).
Proof. done. Qed.

Lemma zombie_move_same_player dt p p' z :
  same_player_but_hp p p' → zombie_move dt p' z = zombie_move dt p z.
Proof.
  intros (Hx & Hy & _). unfold zombie_move, zombie_dir. cbn zeta.
  rewrite Hx, Hy. done.
Qed.

Lemma touches_same_player p p' z :
  same_player_but_hp p p' → touches p' z = touches p z.
Proof.
  intros (Hx & Hy & _ & _ & Hr & _). unfold touches. cbn zeta.
  rewrite Hx, Hy, Hr. done.
Qed.

Lemma contacts_among_same_player dt p p' zs :
  same_player_but_hp p p' → contacts_among dt p' zs = contacts_among dt p zs.
Proof.
  intros Hp. unfold contacts_among. f_equal.
  induction zs as [|z zs IH]; [done|].
  rewrite !filter_cons, IH, (zombie_move_same_player dt p p'),
    (touches_same_player p p') by done.
  done.
Qed.

Lemma contacts_among_snoc dt p zs z :
  contacts_among dt p (zs ++ [z])
  = (contacts_among dt p zs
     + if touches p (zombie_move dt p z) then 1 else 0)%nat.
Proof.
  unfold contacts_among. rewrite filter_app, length_app. f_equal.
  rewrite filter_cons, filter_nil.
  destruct (touches p (zombie_move dt p z)); [by rewrite decide_True|].
  by rewrite decide_False.
Qed.

Lemma take_delete_same {A} (l : list A) k : take k (delete k l) = take k l.
Proof.
  revert k. induction l as [|x l IH]; intros [|k]; cbn; [done..|].
  f_equal. apply IH.
Qed.

(** The iteration at index [k] leaves the zombies below [k] as they are. *)
Lemma zombies_body_take dt k s :
  take k (zombies (zombies_body dt k s)) = take k (zombies s).
Proof.
  destruct (zombies_body_cases dt k s)
    as [[_ ->]|[(z & _ & _ & ->)|[(z & _ & _ & _ & ->)|(z & j & b & _ & _ & _ & _ & _ & ->)]]].
  - done.
  - unfold touched. cbn zeta. destruct (_ <=? _); cbn; apply take_delete_same.
  - unfold moved. cbn. by apply take_insert_ge.
  - unfold killed. cbn. apply take_delete_same.
Qed.

(** The account of the zombie loop: every zombie it removes touched the
    player or was killed with one bullet. *)
Lemma zombies_loop_account dt k s :
  k ≤ List.length (zombies s) →
  (List.length (zombies s) + List.length (bullets (zombies_loop dt k s))
   = List.length (zombies (zombies_loop dt k s))
     + contacts_among dt (player s) (take k (zombies s))
     + List.length (bullets s))%nat.
Proof.
  revert s. induction k as [|k IH]; intros s Hk.
  { rewrite take_0. cbn. lia. }
  cbn [zombies_loop].
  pose proof (zombies_body_length dt k s Hk) as Hk1.
  specialize (IH _ Hk1).
  destruct (zombies_body_frame dt k s) as (Hp & _).
  rewrite (contacts_among_same_player dt (player s)), zombies_body_take in IH by done.
  destruct (zombies_body_cases dt k s)
    as [[Hz _]|[(z & Hz & Ht & Heq)|[(z & Hz & Ht & _ & Heq)
       |(z & j & b & Hz & Ht & Hb & _ & _ & Heq)]]].
  - apply lookup_ge_None in Hz. lia.
  - rewrite (take_S_r _ _ z), contacts_among_snoc, Ht by done.
    assert (List.length (zombies (zombies_body dt k s))
            = (List.length (zombies s) - 1)%nat
            ∧ bullets (zombies_body dt k s) = bullets s) as [Hlz Hlb].
    { rewrite Heq. unfold touched. cbn zeta.
      destruct (_ <=? _); cbn; rewrite length_delete by eauto; done. }
    rewrite Hlb in IH. lia.
  - rewrite (take_S_r _ _ z), contacts_among_snoc, Ht by done.
    assert (List.length (zombies (zombies_body dt k s)) = List.length (zombies s)
            ∧ bullets (zombies_body dt k s) = bullets s) as [Hlz Hlb].
    { rewrite Heq. unfold moved. cbn. by rewrite length_insert. }
    rewrite Hlb in IH. lia.
  - rewrite (take_S_r _ _ z), contacts_among_snoc, Ht by done.
    assert (List.length (zombies (zombies_body dt k s))
            = (List.length (zombies s) - 1)%nat
            ∧ List.length (bullets (zombies_body dt k s))
              = (List.length (bullets s) - 1)%nat)
      as [Hlz Hlb].
    { rewrite Heq. unfold killed. cbn. rewrite !length_delete by eauto. done. }
    apply lookup_lt_Some in Hb. lia.
Qed.

(** The account of a frame, before its spawning logic. *)
Lemma update_entities_account dt fr s :
  List.length (zombies s)
  = (List.length (zombies (update_entities dt fr s))
     + kills dt fr s + contacts dt fr s)%nat.
Proof.
  unfold kills, contacts, update.
  destruct (updateSpawn_keeps dt (frame_canvas fr) (frame_random fr)
              (update_entities dt fr s)) as (_ & _ & _ & ->).
  rewrite update_entities_eq. unfold updateZombies.
  pose proof (zombies_loop_account dt (List.length (zombies (before_zombies dt fr s)))
                (before_zombies dt fr s)) as Hacc.
  rewrite take_ge in Hacc by done.
  rewrite before_zombies_keeps_zombies in Hacc |- *.
  specialize (Hacc ltac:(done)).
  destruct (zombies_loop_frame dt (List.length (zombies s)) (before_zombies dt fr s))
    as (_ & _ & _ & _ & Hsub%sublist_length & _).
  lia.
Qed.

Lemma gameLoop_eq fr (g : F * @World F) :
  gameLoop fr g = (frame_now fr, advance (frame_dt fr g) fr (snd g)).
Proof. done. Qed.

Lemma run_cons fr frs (g : F * @World F) : run (fr :: frs) g = run frs (gameLoop fr g).
Proof. done. Qed.

(** Once the round has ended, the step does nothing. *)
Lemma advance_not_running dt fr s : running s = false → advance dt fr s = s.
Proof. intros H. unfold advance. by rewrite H. Qed.

(** A round starts running, with the starting hit points, no score and no
    entity. *)
Lemma startGame_round c (t : F) s :
  let s0 := snd (startGame c t s) in
  running s0 = true ∧ player_hp (player s0) = num 100 ∧ score s0 = num 0
  ∧ bullets s0 = [] ∧ zombies s0 = [].
Proof. done. Qed.

(** ** The claims that hold for every carrier *)

(** C1 (amended).  When the contact of zombie [i] brings the player's hit
    points to zero or below, [running] is false at once, with the damage
    dealt and the zombie removed; the pass is not cut short: the iterations
    at the indices below [i] follow, and they do what they would do for a
    living player (zombies move, touch the player, are removed by a contact
    or a bullet), [running] staying false to the end of the frame. *)
Theorem death_does_not_stop_the_zombie_pass dt c rnd i z s :
  zombies s !! i = Some z →
  touches (player s) (zombie_move dt (player s) z) = true →
  (player_hp (player s) - damageOnTouch CONFIG <=? num 0) = true →
  let s1 := zombies_body dt i s in
  running s1 = false
  ∧ player_hp (player s1) = player_hp (player s) - damageOnTouch CONFIG
  ∧ zombies s1 = delete i (zombies s)
  ∧ bullets s1 = bullets s
  ∧ score s1 = score s
  ∧ zombies_loop dt (S i) s = zombies_loop dt i s1
  ∧ zombies_loop dt i s1 = set_running false (zombies_loop dt i (set_running true s1))
  ∧ running (updateSpawn dt c rnd (zombies_loop dt i s1)) = false.
Proof.
  intros Hz Ht Hdead s1.
  assert (s1 = set_running false
                 (set_player (set_player_hp (player_hp (player s) - damageOnTouch CONFIG)
                                            (player s))
                    (set_zombies (delete i (zombies s)) s))) as Hs1.
  { unfold s1. rewrite (zombies_body_touch dt i z s) by done.
    unfold touched. cbn zeta. cbn [player_hp set_player_hp]. rewrite Hdead. done. }
  assert (zombies_loop dt i s1
          = set_running false (zombies_loop dt i (set_running true s1))) as Hrest.
  { rewrite <- zombies_loop_set_running_false. f_equal. rewrite Hs1. done. }
  split_and!; try (rewrite Hs1; done); [done..|].
  destruct (updateSpawn_keeps dt c rnd (zombies_loop dt i s1)) as (-> & _).
  rewrite Hrest. done.
Qed.

(** C5 (amended).  A zombie that does not touch the player and overlaps one
    or more bullets is removed together with the overlapping bullet of the
    greatest index, the first one the scan meets on its way down from the
    last index; the score grows by 10, once, and nothing else changes: the
    scan has stopped. *)
Theorem last_overlapping_bullet_wins dt i z s j b :
  zombies s !! i = Some z →
  let z1 := zombie_move dt (player s) z in
  touches (player s) z1 = false →
  bullets s !! j = Some b →
  hits b z1 = true →
  (∀ j' b', j < j' → bullets s !! j' = Some b' → hits b' z1 = false) →
  let s' := zombies_body dt i s in
  zombies s' = delete i (zombies s)
  ∧ bullets s' = delete j (bullets s)
  ∧ score s' = score s + num 10
  ∧ player s' = player s
  ∧ running s' = running s
  ∧ S (List.length (zombies s')) = List.length (zombies s)
  ∧ S (List.length (bullets s')) = List.length (bullets s).
Proof.
  intros Hz z1 Ht Hb Hhit Hlater s'.
  assert (s' = killed i j s) as ->.
  { unfold s'. rewrite (zombies_body_scan dt i z s) by done.
    rewrite (bullet_scan_hit i z1 _ (moved dt i z s) j b); [apply killed_moved|..|done| ].
    - by apply lookup_lt_Some in Hb.
    - done.
    - intros j' b' ? _. by apply Hlater. }
  unfold killed. cbn. split_and!; try done.
  - rewrite length_delete by eauto. apply lookup_lt_Some in Hz. lia.
  - rewrite length_delete by eauto. apply lookup_lt_Some in Hb. lia.
Qed.

(** C6.  The spawning logic adds a zombie only when the timer, after this
    frame's time was added, exceeds the spawn interval and the number of
    zombies is below the desired maximum, which is
    [clamp(5 + level*2 + floor(score/100), 6, 40)] with
    [level = floor(difficultyTimer / 15000)]; it then adds exactly one, at
    the end of the array, and resets the timer to 0.  In particular nothing
    is spawned while the number of zombies is not below the desired
    maximum. *)
Theorem spawn_only_below_desired_maximum dt fr s :
  let s0 := update_entities dt fr s in
  let timer := spawnTimer s0 + dt * num 1000 in
  let level := Math_floor ((difficultyTimer s0 + dt * num 1000) / num 15000) in
  let desired :=
    clamp (num 5 + level * num 2 + Math_floor (score s0 / num 100)) (num 6)
          (maxZombies CONFIG) in
  let below := num (Z.of_nat (List.length (zombies s0))) <? desired in
  let s' := update dt fr s in
  ((timer >? spawnInterval s0) && below = false
     → zombies s' = zombies s0 ∧ spawnTimer s' = timer)
  ∧ ((timer >? spawnInterval s0) && below = true
     → (∃ z, zombies s' = zombies s0 ++ [z]) ∧ spawnTimer s' = num 0
       ∧ List.length (zombies s') = S (List.length (zombies s0)))
  ∧ (below = false → zombies s' = zombies s0).
Proof.
  intros s0 timer level desired below s'.
  unfold s', update. fold s0. unfold updateSpawn. cbn zeta.
  match goal with
  | |- context [spawn_due ?x] =>
      change (spawn_due x) with ((timer >? spawnInterval s0) && below)
  end.
  destruct ((timer >? spawnInterval s0) && below) eqn:Hd.
  - split_and!; [done| |].
    + intros _. unfold spawnZombie. cbn zeta.
      cbn [zombies set_zombies set_spawnInterval set_spawnTimer
           set_difficultyTimer spawnTimer].
      split_and!; [eauto|done|]. rewrite length_app. cbn. lia.
    + intros Hb. rewrite Hb, andb_false_r in Hd. done.
  - split_and!; done.
Qed.

(** C10.  Every bullet of the world after a frame is a bullet the world had
    before the bullet loop (one it had at the start of the frame, or the one
    fired in this frame) with the same velocity and radius, its position
    advanced by velocity times [dt] and its life decreased by [dt*1000];
    the surviving bullets keep their order. *)
Theorem bullets_keep_velocity_and_radius dt fr s :
  let s2 := tryShoot (frame_mouse fr) (frame_now fr)
              (movePlayer dt (frame_canvas fr) (frame_keys fr) s) in
  (bullets s2 = bullets s ∨ ∃ x y vx vy, bullets s2 = bullets s ++ [makeBullet x y vx vy])
  ∧ bullets (update dt fr s) `sublist_of` (bullet_step dt <$> bullets s2)
  ∧ (∀ b', b' ∈ bullets (update dt fr s) →
       ∃ b, b ∈ bullets s2
         ∧ bullet_vx b' = bullet_vx b ∧ bullet_vy b' = bullet_vy b
         ∧ bullet_r b' = bullet_r b
         ∧ bullet_x b' = bullet_x b + bullet_vx b * dt
         ∧ bullet_y b' = bullet_y b + bullet_vy b * dt
         ∧ bullet_life b' = bullet_life b - dt * num 1000).
Proof.
  intros s2.
  assert (bullets (update dt fr s) `sublist_of` (bullet_step dt <$> bullets s2)) as Hsub.
  { unfold update. destruct (updateSpawn_keeps dt (frame_canvas fr) (frame_random fr)
                               (update_entities dt fr s)) as (_ & _ & _ & ->).
    unfold update_entities. cbn zeta. fold s2. unfold updateZombies.
    destruct (zombies_loop_frame dt
                (List.length (zombies (updateBullets dt (frame_canvas fr) s2)))
                (updateBullets dt (frame_canvas fr) s2)) as (_ & _ & _ & _ & Hs & _).
    etrans; [exact Hs|]. rewrite updateBullets_spec. apply sublist_filter. }
  split_and!; [|done|].
  - unfold s2, tryShoot.
    destruct (movePlayer_keeps dt (frame_canvas fr) (frame_keys fr) s)
      as (_ & _ & <- & _).
    destruct (negb _); [by left|]. cbn zeta. destruct (_ <? _); [by left|].
    right. cbn. eauto.
  - intros b' Hb'. apply (elem_of_sublist _ _ _ Hb') in Hsub.
    apply list_elem_of_fmap in Hsub as (b & -> & Hb). exists b. done.
Qed.

(** ** More on the loops of [update] *)

Lemma drop_delete_same {A} (l : list A) k : drop k (delete k l) = drop (S k) l.
Proof.
  revert k. induction l as [|x l IH]; intros [|k]; cbn; [done..|]. apply IH.
Qed.

Lemma drop_insert_same {A} (l : list A) k x y :
  l !! k = Some y → drop k (<[k:=x]> l) = x :: drop (S k) l.
Proof.
  revert k. induction l as [|x' l IH]; intros [|k] Hk; cbn; try done.
  apply IH. done.
Qed.

Lemma apart_weaken p p' (bs bs' : list Bullet) z :
  same_player_but_hp p p' → bs' `sublist_of` bs → apart p bs z → apart p' bs' z.
Proof.
  intros Hp Hsub [Ht Hh]. split.
  - by rewrite (touches_same_player p p').
  - intros b Hb. apply Hh. by eapply elem_of_sublist.
Qed.

(** The zombies from index [k] on stay apart from the player and the
    bullets through the iteration at index [k]. *)
Lemma zombies_body_apart dt k s :
  (∀ z, z ∈ drop (S k) (zombies s) → apart (player s) (bullets s) z) →
  ∀ z, z ∈ drop k (zombies (zombies_body dt k s)) →
       apart (player (zombies_body dt k s)) (bullets (zombies_body dt k s)) z.
Proof.
  intros Hrest.
  destruct (zombies_body_frame dt k s) as (Hp & _ & _ & _ & Hsub & _).
  destruct (zombies_body_cases dt k s)
    as [[Hz Heq]|[(z0 & Hz & Ht & Heq)|[(z0 & Hz & Ht & Hmiss & Heq)
       |(z0 & j & b0 & Hz & Ht & Hb & _ & _ & Heq)]]].
  - rewrite Heq. intros z Hin. apply lookup_ge_None in Hz.
    rewrite drop_ge in Hin by done. by apply elem_of_nil in Hin.
  - intros z Hin. apply (apart_weaken (player s) _ (bullets s)); [done..|].
    apply Hrest. rewrite Heq in Hin. unfold touched in Hin. cbn zeta in Hin.
    destruct (_ <=? _); cbn in Hin; by rewrite drop_delete_same in Hin.
  - rewrite Heq. unfold moved. cbn [zombies set_zombies player bullets].
    rewrite (drop_insert_same _ _ _ z0) by done.
    intros z [->|Hin]%elem_of_cons; [|by apply Hrest].
    split; [done|]. intros b [j Hj]%list_elem_of_lookup. by apply (Hmiss j).
  - intros z Hin. apply (apart_weaken (player s) _ (bullets s)); [done..|].
    apply Hrest. rewrite Heq in Hin. unfold killed in Hin. cbn in Hin.
    by rewrite drop_delete_same in Hin.
Qed.

Lemma zombies_loop_apart dt k s :
  (∀ z, z ∈ drop k (zombies s) → apart (player s) (bullets s) z) →
  ∀ z, z ∈ zombies (zombies_loop dt k s) →
       apart (player (zombies_loop dt k s)) (bullets (zombies_loop dt k s)) z.
Proof.
  revert s. induction k as [|k IH]; intros s Hrest; cbn [zombies_loop].
  - intros z Hin. apply Hrest. by rewrite drop_0.
  - apply IH. by apply zombies_body_apart.
Qed.

(** X2.  When the zombie loop of a frame is over, no zombie that is left
    touches the player, and none overlaps a bullet that is left. *)
Theorem survivors_are_apart dt fr s z :
  z ∈ zombies (update_entities dt fr s) →
  touches (player (update_entities dt fr s)) z = false
  ∧ ∀ b, b ∈ bullets (update_entities dt fr s) → hits b z = false.
Proof.
  rewrite update_entities_eq. unfold updateZombies. apply zombies_loop_apart.
  intros z' Hin. rewrite drop_ge in Hin by done. by apply elem_of_nil in Hin.
Qed.

(** X1.  At the end of a frame no bullet of the world is expired or farther
    than 50 outside the arena. *)
Theorem bullets_left_are_alive dt fr s b :
  b ∈ bullets (update dt fr s) →
  (bullet_life b <=? num 0) = false
  ∧ (bullet_x b <? num (-50)) = false
  ∧ (bullet_x b >? arena_w (frame_canvas fr) + num 50) = false
  ∧ (bullet_y b <? num (-50)) = false
  ∧ (bullet_y b >? arena_h (frame_canvas fr) + num 50) = false.
Proof.
  intros Hb.
  assert (bullet_gone (frame_canvas fr) b = false) as Hgone.
  { unfold update in Hb.
    destruct (updateSpawn_keeps dt (frame_canvas fr) (frame_random fr)
                (update_entities dt fr s)) as (_ & _ & _ & Heq).
    rewrite Heq, update_entities_eq in Hb. unfold updateZombies in Hb.
    match type of Hb with
    | _ ∈ bullets (zombies_loop dt ?k ?s0) =>
        destruct (zombies_loop_frame dt k s0) as (_ & _ & _ & _ & Hsub & _)
    end.
    apply (elem_of_sublist _ _ _ Hb) in Hsub.
    unfold before_zombies in Hsub. rewrite updateBullets_spec in Hsub.
    by apply list_elem_of_filter in Hsub as [? _]. }
  unfold bullet_gone in Hgone. cbn zeta in Hgone.
  repeat (apply orb_false_elim in Hgone as [Hgone ?]). done.
Qed.

(** X4.  The loop over the bullets, which removes in place while it walks
    down the indices, steps every bullet once and keeps, in their order,
    those that are not gone; it writes nothing but the bullets. *)
Theorem bullet_loop_is_step_then_filter dt c s :
  updateBullets dt c s
  = set_bullets
      (filter (λ b, bullet_gone c b = false) (bullet_step dt <$> bullets s)) s.
Proof.
  pose proof (updateBullets_spec dt c s) as H.
  unfold updateBullets in *. cbn [bullets set_bullets] in H. by rewrite H.
Qed.

(** The zombie loop moves the zombies it keeps and keeps their order. *)
Lemma zombies_loop_moved dt k s :
  zombies (zombies_loop dt k s)
  `sublist_of` (zombie_move dt (player s) <$> take k (zombies s)) ++ drop k (zombies s).
Proof.
  revert s. induction k as [|k IH]; intros s; cbn [zombies_loop].
  { rewrite take_0, drop_0. done. }
  etrans; [apply IH|].
  destruct (zombies_body_frame dt k s) as (Hp & _).
  rewrite zombies_body_take.
  assert (∀ l : list Zombie,
            zombie_move dt (player (zombies_body dt k s)) <$> l
            = zombie_move dt (player s) <$> l) as Hmove.
  { intros l. induction l as [|z l IHl]; [done|]. rewrite !fmap_cons, IHl.
    by rewrite (zombie_move_same_player dt (player s)). }
  rewrite Hmove.
  destruct (zombies_body_cases dt k s)
    as [[Hz Heq]|[(z0 & Hz & Ht & Heq)|[(z0 & Hz & Ht & Hmiss & Heq)
       |(z0 & j & b0 & Hz & Ht & Hb & _ & _ & Heq)]]].
  - rewrite Heq. apply lookup_ge_None in Hz.
    rewrite !take_ge, !drop_ge by lia. done.
  - assert (drop k (zombies (zombies_body dt k s)) = drop (S k) (zombies s)) as ->.
    { rewrite Heq. unfold touched. cbn zeta.
      destruct (_ <=? _); cbn; apply drop_delete_same. }
    rewrite (take_S_r _ _ z0), fmap_app, <- app_assoc by done.
    apply sublist_app; [done|]. cbn. by apply sublist_cons.
  - assert (drop k (zombies (zombies_body dt k s))
            = zombie_move dt (player s) z0 :: drop (S k) (zombies s)) as ->.
    { rewrite Heq. unfold moved. cbn. by apply drop_insert_same with z0. }
    rewrite (take_S_r _ _ z0), fmap_app, <- app_assoc by done. done.
  - assert (drop k (zombies (zombies_body dt k s)) = drop (S k) (zombies s)) as ->.
    { rewrite Heq. unfold killed. cbn. apply drop_delete_same. }
    rewrite (take_S_r _ _ z0), fmap_app, <- app_assoc by done.
    apply sublist_app; [done|]. cbn. by apply sublist_cons.
Qed.

(** X3.  Every zombie the zombie loop of a frame leaves is a zombie of the
    world before, moved once towards the player, with the radius, the speed
    and the hit points it had; the zombies keep their order, and the
    spawning logic adds at most one, at the end. *)
Theorem zombies_keep_speed_and_radius dt fr s :
  let p := player (before_zombies dt fr s) in
  zombies (update_entities dt fr s) `sublist_of` (zombie_move dt p <$> zombies s)
  ∧ (∀ z', z' ∈ zombies (update_entities dt fr s) →
       ∃ z, z ∈ zombies s ∧ z' = zombie_move dt p z
            ∧ zombie_r z' = zombie_r z ∧ zombie_speed z' = zombie_speed z
            ∧ zombie_hp z' = zombie_hp z)
  ∧ (zombies (update dt fr s) = zombies (update_entities dt fr s)
     ∨ ∃ z, zombies (update dt fr s) = zombies (update_entities dt fr s) ++ [z]).
Proof.
  intros p.
  assert (zombies (update_entities dt fr s) `sublist_of` (zombie_move dt p <$> zombies s))
    as Hsub.
  { rewrite update_entities_eq. unfold updateZombies.
    etrans; [apply zombies_loop_moved|].
    rewrite take_ge, drop_ge, app_nil_r, before_zombies_keeps_zombies by done. done. }
  split_and!; [done| |].
  - intros z' Hz'. apply (elem_of_sublist _ _ _ Hz') in Hsub.
    apply list_elem_of_fmap in Hsub as (z & -> & Hz). exists z. done.
  - unfold update, updateSpawn. cbn zeta. destruct (spawn_due _); [|by left].
    right. unfold spawnZombie. cbn zeta. cbn. eauto.
Qed.

(** ** The key handlers *)

(** X5.  Pressing a key named for a direction sets the flag of that
    direction, and releasing any key named for it clears the flag, also when
    it is another name than the one pressed; the flags of the other
    directions, the mouse and the world are as before. *)
Theorem release_of_any_name_clears i names (key key' : string) c (t : F)
    (gl : @Globals F) :
  key_names !! i = Some names →
  key ∈ names →
  key' ∈ names →
  let down := keydown key c t gl in
  let up := keyup key' down in
  key_flag i (g_keys down) = true
  ∧ key_flag i (g_keys up) = false
  ∧ (∀ j, j < 4 → j ≠ i → key_flag j (g_keys down) = key_flag j (g_keys gl)
                       ∧ key_flag j (g_keys up) = key_flag j (g_keys gl))
  ∧ g_mouse up = g_mouse gl ∧ g_world up = g_world gl
  ∧ g_lastTime up = g_lastTime gl.
Proof.
  intros Hi Hkey Hkey'.
  destruct i as [|[|[|[|i]]]]; cbn in Hi; try discriminate Hi;
    injection Hi as <-;
    repeat (apply elem_of_cons in Hkey as [->|Hkey]);
    try (by apply elem_of_nil in Hkey);
    repeat (apply elem_of_cons in Hkey' as [->|Hkey']);
    try (by apply elem_of_nil in Hkey');
    (cbn; split_and!; try done;
     intros [|[|[|[|j]]]] Hlt Hne; try done; lia).
Qed.

(** X6.  A key that is none of the names of a direction, nor [r] or [R],
    changes nothing, pressed or released; a press of [r] or [R] does nothing
    while the round runs, and starts a round when none runs: the world is
    then the one of a fresh round and [lastTime] the time of the press,
    whatever the world was. *)
Theorem other_keys_and_restart (key : string) c (t : F) (gl : @Globals F) :
  ((∀ names, names ∈ key_names → key ∉ names) →
   keyup key gl = gl
   ∧ (key ≠ "r"%string → key ≠ "R"%string → keydown key c t gl = gl))
  ∧ (key = "r"%string ∨ key = "R"%string →
     (running (g_world gl) = true → keydown key c t gl = gl)
     ∧ (running (g_world gl) = false →
        let gl' := keydown key c t gl in
        g_lastTime gl' = t ∧ g_keys gl' = g_keys gl ∧ g_mouse gl' = g_mouse gl
        ∧ g_world gl'
          = mkWorld true (num 0)
              (mkPlayer (canvas_width c / num 2 / dpr_or_1 c)
                        (canvas_height c / num 2 / dpr_or_1 c)
                        (num 0) (num 0) (num 16) (num 100) (num 0))
              [] [] (num 0) (num 1500) (num 0))).
Proof.
  split.
  - intros Hnone.
    assert (write_keys key true (g_keys gl) = g_keys gl
            ∧ write_keys key false (g_keys gl) = g_keys gl) as [Hdown Hup].
    { unfold write_keys.
      assert (∀ n1 n2 n3 : string, [n1; n2; n3] ∈ key_names →
                ((key =? n1) || (key =? n2) || (key =? n3))%string = false) as Hno.
      { intros n1 n2 n3 Hin. specialize (Hnone _ Hin).
        destruct (String.eqb_spec key n1) as [->|_];
          [destruct Hnone; repeat constructor|].
        destruct (String.eqb_spec key n2) as [->|_];
          [destruct Hnone; repeat constructor|].
        destruct (String.eqb_spec key n3) as [->|_];
          [destruct Hnone; repeat constructor|].
        done. }
      rewrite !Hno by (unfold key_names; repeat constructor). done. }
    split.
    + unfold keyup. rewrite Hup. by destruct gl.
    + intros Hr HR. unfold keydown. rewrite Hdown.
      destruct (String.eqb_spec key "r"); [done|].
      destruct (String.eqb_spec key "R"); [done|]. by destruct gl.
  - intros [-> | ->]; (split; [intros Hrun|intros Hstop]); unfold keydown; cbn;
      rewrite ?Hrun, ?Hstop; cbn; by destruct gl as [[] ? ? ?].
Qed.

(** With the pointer up [tryShoot] returns at its first line. *)
Lemma tryShoot_pointer_up (mouse : Mouse) now s :
  mouse_down mouse = false → tryShoot mouse now s = s.
Proof. intros H. unfold tryShoot. by rewrite H. Qed.

(** A frame with the pointer up: its bullets are bullets of before, stepped
    once, and the time of the last shot stays. *)
Lemma update_pointer_up dt fr s :
  mouse_down (frame_mouse fr) = false →
  bullets (update dt fr s) `sublist_of` (bullet_step dt <$> bullets s)
  ∧ player_lastShot (player (update dt fr s)) = player_lastShot (player s).
Proof.
  intros Hup. split.
  - unfold update.
    destruct (updateSpawn_keeps dt (frame_canvas fr) (frame_random fr)
                (update_entities dt fr s)) as (_ & _ & _ & ->).
    rewrite update_entities_eq. unfold updateZombies.
    match goal with
    | |- context [zombies_loop dt ?k ?s0] =>
        destruct (zombies_loop_frame dt k s0) as (_ & _ & _ & _ & Hsub & _)
    end.
    etrans; [exact Hsub|].
    unfold before_zombies. rewrite updateBullets_spec, tryShoot_pointer_up by done.
    destruct (movePlayer_keeps dt (frame_canvas fr) (frame_keys fr) s)
      as (_ & _ & -> & _).
    apply sublist_filter.
  - destruct (update_player dt fr s) as (_ & _ & _ & _ & _ & ->).
    rewrite tryShoot_pointer_up by done.
    by destruct (movePlayer_keeps dt (frame_canvas fr) (frame_keys fr) s)
      as (_ & _ & _ & _ & _ & _ & _ & _ & _ & ->).
Qed.

(** X20.  After [mouseup], and likewise after [touchend], the next frame
    fires no bullet, whatever the time since the last shot: the round has
    no more bullets than before and the time of the last shot stays.  The
    two handlers leave the same globals. *)
Theorem released_pointer_fires_no_bullet now c rnd (gl : @Globals F) :
  let up := tick now c rnd (mouseup gl) in
  tick now c rnd (touchend gl) = up
  ∧ mouse_down (g_mouse up) = false
  ∧ mouse_x (g_mouse up) = mouse_x (g_mouse gl)
  ∧ mouse_y (g_mouse up) = mouse_y (g_mouse gl)
  ∧ List.length (bullets (g_world up)) ≤ List.length (bullets (g_world gl))
  ∧ player_lastShot (player (g_world up)) = player_lastShot (player (g_world gl)).
Proof.
  cbn zeta. split; [done|]. split; [done|]. split; [done|]. split; [done|].
  unfold tick. rewrite gameLoop_eq. cbn [fst snd g_world].
  set (fr := frame_of now c rnd (mouseup gl)).
  set (dt := frame_dt fr _).
  change (g_world (mouseup gl)) with (g_world gl).
  unfold advance. destruct (running (g_world gl)); [|done].
  assert (mouse_down (frame_mouse fr) = false) as Hup by done.
  destruct (update_pointer_up dt fr (g_world gl) Hup) as [Hsub ->].
  split; [|done].
  apply sublist_length in Hsub. by rewrite length_fmap in Hsub.
Qed.

End Control.

(** * Properties that need arithmetic, over the real numbers *)

Section OnReals.
Local Open Scope R_scope.
Implicit Types (s : @World R) (b : @Bullet R) (z : @Zombie R) (p : @Player R).
Implicit Types (c : @Canvas R) (fr : @Frame R) (x y dt : R).

(** The operations of the carrier, as operations of [R]. *)
Ltac unjs :=
  cbn [num js_add js_sub js_mul js_div js_lt js_le js_eq
       Math_sqrt Math_floor Math_max Math_min R_Number] in *.

Lemma Rltb_true (u v : R) : u < v → Rltb u v = true.
Proof. intros. unfold Rltb. destruct (Rlt_dec u v); [done|lra]. Qed.
Lemma Rltb_false (u v : R) : v <= u → Rltb u v = false.
Proof. intros. unfold Rltb. destruct (Rlt_dec u v); [lra|done]. Qed.
Lemma Rltb_true_inv (u v : R) : Rltb u v = true → u < v.
Proof. unfold Rltb. destruct (Rlt_dec u v); [done|discriminate]. Qed.
Lemma Rleb_true (u v : R) : u <= v → Rleb u v = true.
Proof. intros. unfold Rleb. destruct (Rle_dec u v); [done|lra]. Qed.
Lemma Rleb_false (u v : R) : v < u → Rleb u v = false.
Proof. intros. unfold Rleb. destruct (Rle_dec u v); [lra|done]. Qed.
Lemma Reqb_true (u v : R) : u = v → Reqb u v = true.
Proof. intros. unfold Reqb. destruct (Req_dec_T u v); done. Qed.
Lemma Reqb_false (u v : R) : u ≠ v → Reqb u v = false.
Proof. intros. unfold Reqb. destruct (Req_dec_T u v); done. Qed.

(** Decides the tests on numbers that linear arithmetic settles. *)
Ltac rtest :=
  repeat match goal with
  | |- context [Rltb ?u ?v] =>
      first [rewrite (Rltb_true u v) by lra | rewrite (Rltb_false u v) by lra]
  | |- context [Rleb ?u ?v] =>
      first [rewrite (Rleb_true u v) by lra | rewrite (Rleb_false u v) by lra]
  | |- context [Reqb ?u ?v] =>
      first [rewrite (Reqb_true u v) by lra | rewrite (Reqb_false u v) by lra]
  | |- context [Rmax ?u ?v] =>
      first [rewrite (Rmax_left u v) by lra | rewrite (Rmax_right u v) by lra]
  | |- context [Rmin ?u ?v] =>
      first [rewrite (Rmin_left u v) by lra | rewrite (Rmin_right u v) by lra]
  end.

(** ** The geometry helpers *)

Lemma length_nonneg x y : 0 <= length x y.
Proof. unfold length. unjs. apply sqrt_pos. Qed.

Lemma length_0_iff x y : length x y = 0 ↔ x = 0 ∧ y = 0.
Proof.
  unfold length. unjs. split.
  - intros H. apply sqrt_eq_0 in H; [|nra]. split; nra.
  - intros [-> ->]. rewrite Rmult_0_l, Rplus_0_l. apply sqrt_0.
Qed.

Lemma normalize_0 : normalize 0 0 = mkVec 0 0.
Proof.
  unfold normalize. cbn zeta. unjs.
  rewrite Reqb_true; [done|]. by apply length_0_iff.
Qed.

Lemma normalize_nonzero x y :
  length x y ≠ 0 → normalize x y = mkVec (x / length x y) (y / length x y).
Proof. intros H. unfold normalize. cbn zeta. unjs. by rewrite Reqb_false. Qed.

(** A vector along the first axis. *)
Lemma length_axis x : 0 <= x → length x 0 = x.
Proof.
  intros. unfold length. unjs. rewrite Rmult_0_l, Rplus_0_r. by apply sqrt_square.
Qed.

Lemma normalize_axis x : 0 < x → normalize x 0 = mkVec 1 0.
Proof.
  intros. rewrite normalize_nonzero; rewrite length_axis by lra; [|lra].
  f_equal; field; lra.
Qed.

(** The zero vector or a vector of length 1. *)
Lemma normalize_cases x y :
  (x = 0 ∧ y = 0 ∧ normalize x y = mkVec 0 0)
  ∨ (0 < length x y
     ∧ normalize x y = mkVec (x / length x y) (y / length x y)
     ∧ vec_x (normalize x y) * vec_x (normalize x y)
       + vec_y (normalize x y) * vec_y (normalize x y) = 1).
Proof.
  destruct (Req_dec_T (length x y) 0) as [H0|Hne].
  - left. apply length_0_iff in H0 as [-> ->]. split_and!; [done..|]. apply normalize_0.
  - right. pose proof (length_nonneg x y) as Hpos.
    rewrite normalize_nonzero by done. split_and!; [lra|done|]. cbn [vec_x vec_y].
    assert (length x y * length x y = x * x + y * y) as Hsq.
    { unfold length. unjs. apply sqrt_sqrt. nra. }
    field_simplify_eq; [|done]. lra.
Qed.

Lemma normalize_le_1 x y :
  -1 <= vec_x (normalize x y) <= 1 ∧ -1 <= vec_y (normalize x y) <= 1.
Proof.
  destruct (normalize_cases x y) as [(_ & _ & ->)|(_ & _ & Hunit)].
  - cbn. lra.
  - split; nra.
Qed.


(** ** Shooting *)

Lemma tryShoot_idle (mouse : Mouse) now s :
  mouse_down mouse = false ∨ now - player_lastShot (player s) < 200 →
  tryShoot mouse now s = s.
Proof.
  intros H. unfold tryShoot. destruct (mouse_down mouse); [|done].
  destruct H as [|H]; [done|]. cbn [negb]. cbn zeta. unjs.
  cbn [fireRate CONFIG]. unjs. by rewrite Rltb_true.
Qed.

Lemma tryShoot_fires (mouse : Mouse) now s :
  mouse_down mouse = true →
  200 <= now - player_lastShot (player s) →
  let p := player s in
  let n := normalize (mouse_x mouse - player_x p) (mouse_y mouse - player_y p) in
  tryShoot mouse now s
  = set_player
      (mkPlayer (player_x p - vec_x n * 4) (player_y p - vec_y n * 4)
                (player_vx p) (player_vy p) (player_radius p) (player_hp p) now)
      (set_bullets
         (bullets s ++ [makeBullet (player_x p + vec_x n * (player_radius p + 8))
                                   (player_y p + vec_y n * (player_radius p + 8))
                                   (vec_x n * 800) (vec_y n * 800)])
         s).
Proof.
  intros Hdown Hrate. unfold tryShoot. rewrite Hdown. cbn [negb]. cbn zeta. unjs.
  cbn [fireRate bulletSpeed CONFIG]. unjs. rewrite Rltb_false by done. done.
Qed.

(** The shot whose aim is the player's own position. *)
Lemma tryShoot_on_player (mouse : Mouse) now s :
  mouse_down mouse = true →
  200 <= now - player_lastShot (player s) →
  mouse_x mouse = player_x (player s) →
  mouse_y mouse = player_y (player s) →
  tryShoot mouse now s
  = set_player (set_player_lastShot now (player s))
      (set_bullets
         (bullets s ++ [makeBullet (player_x (player s)) (player_y (player s)) 0 0])
         s).
Proof.
  intros Hdown Hrate Hx Hy. rewrite tryShoot_fires by done. cbn zeta.
  rewrite Hx, Hy, !Rminus_diag, normalize_0. cbn [vec_x vec_y].
  unfold set_player_lastShot. f_equal.
  - f_equal; lra.
  - do 3 f_equal. f_equal; lra.
Qed.

(** C2 (amended).  When the pointer is held, the fire interval has elapsed
    and the aim is exactly the player's position, nothing is divided by zero
    and the recoil is zero, so the player does not move; but the shot is
    fired: a bullet with velocity zero is added at the player's position and
    [lastShot] becomes [now]. *)
Theorem zero_aim_fires_a_still_bullet (mouse : Mouse) now s :
  mouse_down mouse = true →
  fireRate CONFIG <= now - player_lastShot (player s) →
  mouse_x mouse = player_x (player s) →
  mouse_y mouse = player_y (player s) →
  let s' := tryShoot mouse now s in
  bullets s'
  = bullets s ++ [makeBullet (player_x (player s)) (player_y (player s)) 0 0]
  ∧ player_lastShot (player s') = now
  ∧ player_x (player s') = player_x (player s)
  ∧ player_y (player s') = player_y (player s)
  ∧ zombies s' = zombies s ∧ score s' = score s ∧ running s' = running s.
Proof.
  intros Hdown Hrate Hx Hy s'. unfold s'.
  rewrite tryShoot_on_player by done. cbn. done.
Qed.

(** The theorem of C2 on [Ideal.fresh], the pointer on the player's centre. *)
Lemma zero_aim_fires_a_still_bullet_witness :
  mouse_down Ideal.aim_on_player = true
  ∧ fireRate CONFIG <= 1000 - player_lastShot (player Ideal.fresh)
  ∧ bullets (tryShoot Ideal.aim_on_player 1000 Ideal.fresh)
    = [makeBullet 100 100 0 0].
Proof.
  split; [reflexivity|]. split; [cbn; lra|].
  apply (zero_aim_fires_a_still_bullet Ideal.aim_on_player 1000 Ideal.fresh);
    [reflexivity|cbn; lra|reflexivity..].
Defined.

(** C2: the claim fails on [Ideal.fresh] with the pointer held on the
    player's centre at time 1000: the array of bullets was empty and has a
    bullet afterwards, and [lastShot] has moved from 0 to 1000. *)
Lemma zero_aim_no_op_counterexample :
  let s' := tryShoot Ideal.aim_on_player 1000 Ideal.fresh in
  mouse_x Ideal.aim_on_player = player_x (player Ideal.fresh)
  ∧ mouse_y Ideal.aim_on_player = player_y (player Ideal.fresh)
  ∧ bullets Ideal.fresh = []
  ∧ bullets s' = [mkBullet 100 100 0 0 4 1800]
  ∧ player_lastShot (player Ideal.fresh) = 0
  ∧ player_lastShot (player s') = 1000
  ∧ s' ≠ Ideal.fresh.
Proof.
  cbn zeta.
  rewrite (tryShoot_on_player Ideal.aim_on_player 1000 Ideal.fresh);
    [|reflexivity|cbn; lra|reflexivity..].
  split_and!; try reflexivity.
  intros H. apply (f_equal (λ s, List.length (bullets s))) in H. discriminate H.
Qed.

(** ** The player and the bounds of the arena *)

Lemma clamp_bounds (v lo hi : R) : lo <= hi → lo <= clamp v lo hi <= hi.
Proof.
  intros. unfold clamp. unjs. unfold Rmax, Rmin.
  repeat destruct (Rle_dec _ _); lra.
Qed.

Lemma clamp_id (v lo hi : R) : lo <= v <= hi → clamp v lo hi = v.
Proof.
  intros. unfold clamp. unjs. unfold Rmax, Rmin.
  repeat destruct (Rle_dec _ _); lra.
Qed.

Lemma movePlayer_in_bounds dt c (keys : Keys) s :
  let r := player_radius (player s) in
  r + 6 <= arena_w c - r - 6 →
  r + 6 <= arena_h c - r - 6 →
  in_bounds c (player (movePlayer dt c keys s)).
Proof.
  intros r Hw Hh. unfold movePlayer, in_bounds. cbn zeta.
  destruct (_ || _);
    cbn [player set_player player_x player_y player_radius set_player_xy]; unjs;
    split; apply clamp_bounds; done.
Qed.

(** C3 (amended).  In an arena that has room for the player, the position
    the movement step leaves is within the bounds; it is still the position
    at the end of [update] in a frame in which no shot is fired.  In a frame
    in which a shot is fired the final position is that position moved back
    by 4 along the direction of the aim, and is not clamped again.  In every
    frame the final position is within the bounds widened by 4. *)
Theorem player_in_bounds_until_recoil dt fr s :
  let c := frame_canvas fr in
  let r := player_radius (player s) in
  r + 6 <= arena_w c - r - 6 →
  r + 6 <= arena_h c - r - 6 →
  let s1 := movePlayer dt c (frame_keys fr) s in
  let s' := update dt fr s in
  let n := normalize (mouse_x (frame_mouse fr) - player_x (player s1))
                     (mouse_y (frame_mouse fr) - player_y (player s1)) in
  in_bounds c (player s1)
  ∧ (mouse_down (frame_mouse fr) = false
     ∨ frame_now fr - player_lastShot (player s) < fireRate CONFIG
     → player_x (player s') = player_x (player s1)
       ∧ player_y (player s') = player_y (player s1)
       ∧ in_bounds c (player s'))
  ∧ (mouse_down (frame_mouse fr) = true
     → fireRate CONFIG <= frame_now fr - player_lastShot (player s)
     → player_x (player s') = player_x (player s1) - vec_x n * 4
       ∧ player_y (player s') = player_y (player s1) - vec_y n * 4)
  ∧ (r + 6 - 4 <= player_x (player s') <= arena_w c - r - 6 + 4
     ∧ r + 6 - 4 <= player_y (player s') <= arena_h c - r - 6 + 4).
Proof.
  intros c r Hw Hh s1 s' n.
  pose proof (movePlayer_in_bounds dt c (frame_keys fr) s Hw Hh) as Hin. fold s1 in Hin.
  destruct (movePlayer_keeps dt c (frame_keys fr) s)
    as (_ & _ & _ & _ & _ & _ & _ & _ & _ & Hshot). fold s1 in Hshot.
  destruct (update_player dt fr s) as (Hx & Hy & _ & _ & Hr & _).
  fold c s1 s' in Hx, Hy, Hr.
  destruct (movePlayer_keeps dt c (frame_keys fr) s)
    as (_ & _ & _ & _ & _ & _ & _ & Hrad & _). fold s1 in Hrad.
  assert (mouse_down (frame_mouse fr) = false
          ∨ frame_now fr - player_lastShot (player s) < fireRate CONFIG
          → player_x (player s') = player_x (player s1)
            ∧ player_y (player s') = player_y (player s1)
            ∧ in_bounds c (player s')) as Hquiet.
  { intros Hidle. rewrite tryShoot_idle in Hx, Hy, Hr by (by rewrite Hshot).
    split_and!; [done..|]. unfold in_bounds. rewrite Hx, Hy, Hr. exact Hin. }
  assert (mouse_down (frame_mouse fr) = true
          → fireRate CONFIG <= frame_now fr - player_lastShot (player s)
          → player_x (player s') = player_x (player s1) - vec_x n * 4
            ∧ player_y (player s') = player_y (player s1) - vec_y n * 4) as Hfire.
  { intros Hdown Hrate. rewrite tryShoot_fires in Hx, Hy by (by rewrite ?Hshot).
    cbn in Hx, Hy. done. }
  split; [exact Hin|]. split; [exact Hquiet|]. split; [exact Hfire|].
  unfold in_bounds in Hin. rewrite Hrad in Hin. fold r in Hin.
  destruct (mouse_down (frame_mouse fr)) eqn:Hdown.
  - destruct (Rlt_dec (frame_now fr - player_lastShot (player s)) (fireRate CONFIG))
      as [Hlt|Hge].
    + destruct Hquiet as (-> & -> & _); [by right|]. lra.
    + destruct Hfire as [-> ->]; [done|lra|].
      pose proof (normalize_le_1 (mouse_x (frame_mouse fr) - player_x (player s1))
                    (mouse_y (frame_mouse fr) - player_y (player s1))) as Hn.
      fold n in Hn. lra.
  - destruct Hquiet as (-> & -> & _); [by left|]. lra.
Qed.

Lemma arena_ideal : arena_w Ideal.canvas = 800 ∧ arena_h Ideal.canvas = 640.
Proof.
  unfold arena_w, arena_h, dpr_or_1. cbn. rtest. cbn. split; lra.
Qed.

(** Without a key held the movement step only clamps. *)
Lemma movePlayer_no_keys dt c s :
  in_bounds c (player s) → movePlayer dt c Ideal.no_keys s = s.
Proof.
  intros [Hx Hy]. unfold movePlayer. cbn zeta. cbn [key_w key_a key_s key_d Ideal.no_keys].
  unjs. rtest. cbn [negb orb]. unjs. rewrite !clamp_id by done.
  destruct s as [? ? []]; done.
Qed.

(** The theorem of C3 on [Ideal.cornered] in the arena of 800 by 640. *)
Lemma player_in_bounds_until_recoil_witness :
  player_radius (player Ideal.cornered) + 6
    <= arena_w Ideal.canvas - player_radius (player Ideal.cornered) - 6
  ∧ player_radius (player Ideal.cornered) + 6
    <= arena_h Ideal.canvas - player_radius (player Ideal.cornered) - 6
  ∧ in_bounds Ideal.canvas
      (player (movePlayer (1 / 64) Ideal.canvas Ideal.no_keys Ideal.cornered)).
Proof.
  destruct arena_ideal as [Hw Hh].
  split; [rewrite Hw; cbn; lra|]. split; [rewrite Hh; cbn; lra|].
  apply (player_in_bounds_until_recoil (1 / 64) Ideal.shot_at_the_edge Ideal.cornered);
    cbn [frame_canvas Ideal.shot_at_the_edge]; [rewrite Hw|rewrite Hh]; cbn; lra.
Defined.

(** C3: the claim fails on [Ideal.cornered].  The player stands on the left
    bound, x = 16 + 6, and shoots to the right; the recoil leaves it at
    x = 18 at the end of the frame. *)
Lemma recoil_leaves_the_bounds_counterexample :
  let s' := update (1 / 64) Ideal.shot_at_the_edge Ideal.cornered in
  in_bounds Ideal.canvas (player Ideal.cornered)
  ∧ player_x (player s') = 18
  ∧ player_radius (player s') = 16
  ∧ ¬ in_bounds Ideal.canvas (player s').
Proof.
  cbn zeta. destruct arena_ideal as [Hw Hh].
  assert (in_bounds Ideal.canvas (player Ideal.cornered)) as Hin.
  { unfold in_bounds. rewrite Hw, Hh. cbn. lra. }
  destruct (update_player (1 / 64) Ideal.shot_at_the_edge Ideal.cornered)
    as (Hx & _ & _ & _ & Hr & _).
  cbn [frame_canvas frame_keys frame_mouse frame_now Ideal.shot_at_the_edge] in Hx, Hr.
  rewrite movePlayer_no_keys in Hx, Hr by done.
  rewrite tryShoot_fires in Hx, Hr by (cbn; (reflexivity || lra)).
  cbn in Hx, Hr.
  replace (122 - 22) with 100 in Hx by lra.
  replace (100 - 100) with 0 in Hx by lra.
  rewrite normalize_axis in Hx by lra. cbn in Hx.
  assert (player_x (player (update (1 / 64) Ideal.shot_at_the_edge Ideal.cornered)) = 18)
    as Hx' by lra.
  split_and!; [done..|].
  unfold in_bounds. rewrite Hx', Hr. lra.
Qed.

(** ** A frame of no duration *)

Lemma movePlayer_0 c (keys : Keys) s :
  in_bounds c (player s) → movePlayer 0 c keys s = s.
Proof.
  intros [Hx Hy]. unfold movePlayer. cbn zeta.
  destruct (_ || _);
    cbn [player_x player_y player_radius set_player_xy]; unjs;
    rewrite ?Rmult_0_r, ?Rplus_0_r, !clamp_id by done;
    destruct s as [? ? []]; done.
Qed.

Lemma bullet_step_0 b : bullet_step 0 b = b.
Proof.
  destruct b. unfold bullet_step. cbn. unjs.
  rewrite !Rmult_0_r, !Rmult_0_l, !Rplus_0_r, Rminus_0_r. done.
Qed.

Lemma zombie_move_0 p z : zombie_move 0 p z = z.
Proof.
  destruct z. unfold zombie_move, set_zombie_xy. cbn. unjs.
  rewrite !Rmult_0_r, !Rplus_0_r. done.
Qed.

Lemma updateBullets_0 c s :
  (∀ b, b ∈ bullets s → bullet_gone c b = false) → updateBullets 0 c s = s.
Proof.
  intros Hkeep.
  assert (bullets (updateBullets 0 c s) = bullets s) as Hbs.
  { rewrite updateBullets_spec.
    induction (bullets s) as [|b bs IH]; [done|].
    rewrite fmap_cons, bullet_step_0, filter_cons_True by (apply Hkeep; left).
    f_equal. apply IH. intros b' ?. apply Hkeep. by right. }
  unfold updateBullets in *. cbn [bullets set_bullets] in Hbs. rewrite Hbs.
  destruct s; done.
Qed.

Lemma zombies_loop_0 k s :
  (∀ z, z ∈ zombies s → touches (player s) z = false) →
  (∀ z b, z ∈ zombies s → b ∈ bullets s → hits b z = false) →
  zombies_loop 0 k s = s.
Proof.
  intros Htouch Hhit. induction k as [|k IH]; cbn [zombies_loop]; [done|].
  assert (zombies_body 0 k s = s) as ->; [|done].
  destruct (zombies s !! k) as [z|] eqn:Hz; [|by apply zombies_body_none].
  assert (z ∈ zombies s) as Hin by (by eapply list_elem_of_lookup_2).
  rewrite (zombies_body_scan 0 k z s); rewrite ?zombie_move_0; auto.
  rewrite bullet_scan_miss.
  - unfold moved. rewrite zombie_move_0, list_insert_id by done. destruct s; done.
  - intros j b _ Hb. apply Hhit; [done|]. unfold moved in Hb. cbn in Hb.
    by eapply list_elem_of_lookup_2.
Qed.

Lemma updateSpawn_0 c rnd s : spawn_due s = false → updateSpawn 0 c rnd s = s.
Proof.
  intros Hdue. unfold updateSpawn. cbn zeta.
  assert (set_difficultyTimer
            (difficultyTimer (set_spawnTimer (spawnTimer s + 0 * num 1000)%js s)
             + 0 * num 1000)%js
            (set_spawnTimer (spawnTimer s + 0 * num 1000)%js s) = s) as ->.
  { destruct s. unfold set_difficultyTimer, set_spawnTimer. cbn. unjs.
    rewrite !Rmult_0_l, !Rplus_0_r. done. }
  rewrite Hdue. done.
Qed.

(** C4 (amended).  In a frame of no duration nothing moves and nothing
    ages; the world is left as it was whenever the frame is uneventful. *)
Theorem zero_dt_is_the_identity_when_uneventful fr s :
  uneventful fr s → update 0 fr s = s ∧ advance 0 fr s = s.
Proof.
  intros (Hin & Hidle & Hkeep & Htouch & Hhit & Hdue).
  assert (update 0 fr s = s) as Hupd.
  { unfold update, update_entities. cbn zeta.
    rewrite movePlayer_0 by done. rewrite tryShoot_idle by done.
    rewrite updateBullets_0 by done. unfold updateZombies.
    rewrite zombies_loop_0 by done. by apply updateSpawn_0. }
  split; [done|]. unfold advance. rewrite Hupd. by destruct (running s).
Qed.

Lemma standoff_uneventful : uneventful Ideal.idle Ideal.standoff.
Proof.
  destruct arena_ideal as [Hw Hh]. unfold uneventful.
  cbn [frame_canvas frame_mouse frame_now Ideal.idle].
  split_and!.
  - unfold in_bounds. rewrite Hw, Hh. cbn. lra.
  - by left.
  - intros b ->%list_elem_of_singleton. unfold bullet_gone. rewrite Hw, Hh.
    cbn. rtest. done.
  - intros z ->%list_elem_of_singleton. unfold touches, dist2. cbn. rtest. done.
  - intros z b ->%list_elem_of_singleton ->%list_elem_of_singleton.
    unfold hits, dist2. cbn. rtest. done.
  - unfold spawn_due. cbn. rtest. done.
Qed.

(** The theorem of C4 on [Ideal.standoff], an uneventful frame with a bullet
    and a zombie in the world. *)
Lemma zero_dt_is_the_identity_when_uneventful_witness :
  uneventful Ideal.idle Ideal.standoff
  ∧ update 0 Ideal.idle Ideal.standoff = Ideal.standoff.
Proof.
  split; [exact standoff_uneventful|].
  apply (zero_dt_is_the_identity_when_uneventful Ideal.idle Ideal.standoff).
  exact standoff_uneventful.
Defined.

(** C4: the claim fails on [Ideal.fresh] with the pointer held down: in a
    frame of no duration the shot is fired all the same. *)
Lemma zero_dt_shot_counterexample :
  let s' := update 0 Ideal.trigger_held Ideal.fresh in
  bullets Ideal.fresh = []
  ∧ bullets s' = [mkBullet 124 100 800 0 4 1800]
  ∧ player_lastShot (player s') = 1000
  ∧ player_x (player s') = 96
  ∧ s' ≠ Ideal.fresh.
Proof.
  cbn zeta. destruct arena_ideal as [Hw Hh].
  assert (in_bounds Ideal.canvas (player Ideal.fresh)) as Hin.
  { unfold in_bounds. rewrite Hw, Hh. cbn. lra. }
  assert (tryShoot Ideal.aim_east 1000 Ideal.fresh
          = set_player (mkPlayer 96 100 0 0 16 100 1000)
              (set_bullets [mkBullet 124 100 800 0 4 1800] Ideal.fresh)) as Hshot.
  { rewrite tryShoot_fires by (cbn; (reflexivity || lra)). cbn.
    replace (200 - 100) with 100 by lra. replace (100 - 100) with 0 by lra.
    rewrite normalize_axis by lra. cbn. unfold makeBullet, set_player, set_bullets.
    cbn. unjs. f_equal; [f_equal; lra|]. do 2 f_equal; lra. }
  assert (update 0 Ideal.trigger_held Ideal.fresh
          = set_player (mkPlayer 96 100 0 0 16 100 1000)
              (set_bullets [mkBullet 124 100 800 0 4 1800] Ideal.fresh)) as ->.
  { unfold update, update_entities. cbn zeta.
    cbn [frame_canvas frame_keys frame_mouse frame_now frame_random Ideal.trigger_held].
    rewrite movePlayer_no_keys, Hshot by done.
    rewrite updateBullets_0.
    - unfold updateZombies. cbn [zombies set_player set_bullets Ideal.fresh].
      cbn [List.length zombies_loop]. apply updateSpawn_0.
      unfold spawn_due. cbn. rtest. done.
    - intros b ->%list_elem_of_singleton. unfold bullet_gone. rewrite Hw, Hh.
      cbn. rtest. done. }
  split_and!; try reflexivity.
  intros H. apply (f_equal (λ s, List.length (bullets s))) in H. discriminate H.
Qed.

(** ** Spawning *)

Lemma desiredMaxZombies_bounds (level sc : R) :
  6 <= desiredMaxZombies level sc <= 40.
Proof.
  unfold desiredMaxZombies. cbn [maxZombies CONFIG]. unjs. apply clamp_bounds. lra.
Qed.

(** The spawning logic of a frame, on the world [s0] that reaches it. *)
Lemma updateSpawn_zombies dt c rnd s0 :
  let desired :=
    desiredMaxZombies (difficultyLevel (difficultyTimer s0 + dt * 1000)) (score s0) in
  (zombies (updateSpawn dt c rnd s0) = zombies s0)
  ∨ (INR (List.length (zombies s0)) < desired
     ∧ List.length (zombies (updateSpawn dt c rnd s0)) = S (List.length (zombies s0))).
Proof.
  cbn zeta. unfold updateSpawn. cbn zeta.
  destruct (spawn_due _) eqn:Hdue; [|by left].
  right. unfold spawn_due in Hdue. apply andb_prop in Hdue as [_ Hbelow].
  cbn [zombies score difficultyTimer set_difficultyTimer set_spawnTimer] in Hbelow.
  unjs. apply Rltb_true_inv in Hbelow. rewrite <- INR_IZR_INZ in Hbelow.
  split; [exact Hbelow|].
  unfold spawnZombie. cbn zeta. cbn [zombies set_zombies set_spawnInterval set_spawnTimer
                                     set_difficultyTimer].
  rewrite length_app. cbn. lia.
Qed.

(** Nothing is spawned while the zombies are as many as the desired maximum
    or more. *)
Lemma no_spawn_at_the_desired_maximum dt fr s :
  let s0 := update_entities dt fr s in
  desiredMaxZombies (difficultyLevel (difficultyTimer s0 + dt * 1000)) (score s0)
    <= INR (List.length (zombies s0)) →
  zombies (update dt fr s) = zombies s0.
Proof.
  intros s0 Hfull. unfold update. fold s0.
  destruct (updateSpawn_zombies dt (frame_canvas fr) (frame_random fr) s0)
    as [Heq|[Hlt _]]; [done|lra].
Qed.

(** A frame leaves at most 40 zombies, or no more than it found. *)
Lemma zombies_capped dt fr s :
  (List.length (zombies (update dt fr s)) ≤ Nat.max (List.length (zombies s)) 40)%nat.
Proof.
  assert (List.length (zombies (update_entities dt fr s)) ≤ List.length (zombies s))%nat
    as Hle.
  { rewrite update_entities_eq. unfold updateZombies.
    etrans; [apply zombies_loop_length|].
    by rewrite before_zombies_keeps_zombies. }
  unfold update.
  destruct (updateSpawn_zombies dt (frame_canvas fr) (frame_random fr)
              (update_entities dt fr s)) as [->|[Hlt ->]]; [lia|].
  match type of Hlt with _ < desiredMaxZombies ?l ?sc =>
    pose proof (desiredMaxZombies_bounds l sc) as [_ Hcap] end.
  assert (INR (List.length (zombies (update_entities dt fr s))) < INR 40) as Hlt40.
  { replace (INR 40) with 40 by (rewrite INR_IZR_INZ; done). lra. }
  apply INR_lt in Hlt40. lia.
Qed.

(** ** Hit points and score *)

Lemma Rleb_Rltb (u : R) : Rleb u 0 = negb (Rltb 0 u).
Proof.
  destruct (Rle_dec u 0).
  - rewrite Rleb_true, Rltb_false by done. done.
  - rewrite Rleb_false, Rltb_true by lra. done.
Qed.

(** One iteration: the damage dealt and the end of the round. *)
Lemma zombies_body_hp dt k s :
  let t := match zombies s !! k with
           | Some z => touches (player s) (zombie_move dt (player s) z)
           | None => false
           end in
  player_hp (player (zombies_body dt k s))
  = player_hp (player s) - (if t then 20 else 0)
  ∧ running (zombies_body dt k s)
    = running s && (negb t || Rltb 0 (player_hp (player s) - 20)).
Proof.
  cbn zeta.
  destruct (zombies_body_cases dt k s)
    as [[-> ->]|[(z & -> & -> & ->)|[(z & -> & -> & _ & ->)
       |(z & j & b & -> & -> & _ & _ & _ & ->)]]].
  - cbn. split; [lra|]. by rewrite andb_true_r.
  - unfold touched. cbn zeta. cbn [player_hp set_player_hp damageOnTouch CONFIG]. unjs.
    rewrite Rleb_Rltb. cbn [negb orb].
    destruct (Rltb 0 _); cbn; split; try done; by rewrite ?andb_true_r, ?andb_false_r.
  - unfold moved. cbn. split; [lra|]. by rewrite andb_true_r.
  - unfold killed. cbn. split; [lra|]. by rewrite andb_true_r.
Qed.

(** The zombie loop: the hit points fall by 20 for each contact, and the
    round ends when a contact leaves none. *)
Lemma zombies_loop_contacts dt k s :
  let n := contacts_among dt (player s) (take k (zombies s)) in
  let s' := zombies_loop dt k s in
  player_hp (player s') = player_hp (player s) - 20 * INR n
  ∧ running s' = running s && (Nat.eqb n 0 || Rltb 0 (player_hp (player s'))).
Proof.
  cbn zeta. revert s. induction k as [|k IH]; intros s.
  { rewrite take_0. unfold contacts_among. rewrite filter_nil.
    cbn [zombies_loop List.length INR Nat.eqb orb].
    split; [lra|]. by rewrite andb_true_r. }
  cbn [zombies_loop].
  destruct (IH (zombies_body dt k s)) as [Hhp Hrun].
  destruct (zombies_body_frame dt k s) as (Hp & _).
  rewrite (contacts_among_same_player dt (player s)), zombies_body_take in Hhp, Hrun
    by done.
  destruct (zombies_body_hp dt k s) as [Hhp1 Hrun1].
  rewrite Hhp1 in Hhp. rewrite Hrun, Hrun1, !Hhp. clear Hhp Hhp1 Hrun1 Hrun IH.
  set (n1 := contacts_among dt (player s) (take k (zombies s))) in *.
  destruct (zombies s !! k) as [z|] eqn:Hz.
  - rewrite (take_S_r _ _ z), contacts_among_snoc by done. fold n1.
    destruct (touches (player s) (zombie_move dt (player s) z)).
    + rewrite Nat.add_1_r, S_INR. cbn [negb orb Nat.eqb]. split; [lra|].
      destruct (running s); [|done]. cbn [andb].
      destruct n1 as [|n1]; cbn [Nat.eqb orb].
      * cbn [INR]. rewrite Rmult_0_r, Rminus_0_r. by destruct (Rltb 0 _).
      * pose proof (pos_INR n1). rewrite S_INR.
        destruct (Rle_dec (player_hp (player s) - 20) 0).
        { rewrite !Rltb_false by lra. done. }
        { rewrite (Rltb_true 0 (player_hp (player s) - 20)) by lra. done. }
    + rewrite Nat.add_0_r. cbn [negb orb]. split; [lra|]. by rewrite andb_true_r.
  - assert (take (S k) (zombies s) = take k (zombies s)) as ->.
    { apply lookup_ge_None in Hz. rewrite !take_ge by lia. done. }
    fold n1. cbn [negb orb]. split; [lra|]. by rewrite andb_true_r.
Qed.

(** The zombie loop: the score grows by 10 for each bullet it removes. *)
Lemma zombies_loop_score dt k s :
  ∃ n : nat,
    score (zombies_loop dt k s) = score s + 10 * INR n
    ∧ List.length (bullets s) = (List.length (bullets (zombies_loop dt k s)) + n)%nat.
Proof.
  revert s. induction k as [|k IH]; intros s.
  { exists 0%nat. cbn. split; [lra|lia]. }
  cbn [zombies_loop]. destruct (IH (zombies_body dt k s)) as (n & Hs & Hb).
  destruct (zombies_body_cases dt k s)
    as [[_ Heq]|[(z & _ & _ & Heq)|[(z & _ & _ & _ & Heq)
       |(z & j & b & _ & _ & Hj & _ & _ & Heq)]]];
    rewrite Heq in Hs, Hb |- *.
  - by exists n.
  - exists n. unfold touched in *. cbn zeta in *. destruct (_ <=? _)%js; done.
  - by exists n.
  - exists (S n). rewrite Hs, S_INR. split.
    + unfold killed. cbn [score set_score]. unjs. lra.
    + assert (List.length (bullets (killed k j s)) = (List.length (bullets s) - 1)%nat)
        as Hlen by (unfold killed; cbn; rewrite length_delete; eauto).
      apply lookup_lt_Some in Hj. lia.
Qed.

Lemma before_zombies_keeps dt fr s :
  let s3 := before_zombies dt fr s in
  running s3 = running s ∧ score s3 = score s ∧ zombies s3 = zombies s
  ∧ player_hp (player s3) = player_hp (player s).
Proof.
  cbn zeta. unfold before_zombies.
  destruct (movePlayer_keeps dt (frame_canvas fr) (frame_keys fr) s)
    as (Hr & Hs & _ & Hz & _ & _ & _ & _ & Hhp & _).
  destruct (tryShoot_keeps (frame_mouse fr) (frame_now fr)
              (movePlayer dt (frame_canvas fr) (frame_keys fr) s))
    as (Hr' & Hs' & Hz' & _ & _ & _ & _ & Hhp').
  cbn [updateBullets running score zombies player set_bullets].
  split_and!; congruence.
Qed.

Lemma update_score dt fr s :
  score (update dt fr s) = score s + 10 * INR (kills dt fr s).
Proof.
  unfold kills, update.
  destruct (updateSpawn_keeps dt (frame_canvas fr) (frame_random fr)
              (update_entities dt fr s)) as (_ & -> & _ & ->).
  rewrite update_entities_eq. unfold updateZombies.
  destruct (zombies_loop_score dt (List.length (zombies (before_zombies dt fr s)))
              (before_zombies dt fr s)) as (n & -> & Hb).
  destruct (before_zombies_keeps dt fr s) as (_ & -> & _).
  do 3 f_equal. lia.
Qed.

Lemma update_hp dt fr s :
  player_hp (player (update dt fr s))
  = player_hp (player s) - 20 * INR (contacts dt fr s)
  ∧ running (update dt fr s)
    = running s
      && (Nat.eqb (contacts dt fr s) 0 || Rltb 0 (player_hp (player (update dt fr s)))).
Proof.
  unfold contacts, update.
  destruct (updateSpawn_keeps dt (frame_canvas fr) (frame_random fr)
              (update_entities dt fr s)) as (-> & _ & -> & _).
  rewrite update_entities_eq. unfold updateZombies.
  destruct (zombies_loop_contacts dt (List.length (zombies (before_zombies dt fr s)))
              (before_zombies dt fr s)) as (Hhp & Hrun).
  rewrite take_ge in Hhp, Hrun by done.
  destruct (before_zombies_keeps dt fr s) as (Hr & _ & _ & Hp).
  rewrite Hr in Hrun. rewrite Hp in Hhp. done.
Qed.

Lemma advance_score_le dt fr s : score s <= score (advance dt fr s).
Proof.
  unfold advance. destruct (running s); [|lra].
  rewrite update_score. pose proof (pos_INR (kills dt fr s)). lra.
Qed.

Lemma run_score_le (frs : list Frame) (g : R * World) :
  score (snd g) <= score (snd (run frs g)).
Proof.
  revert g. induction frs as [|fr frs IH]; intros g; [cbn; lra|].
  rewrite run_cons. etrans; [|apply IH]. rewrite gameLoop_eq. cbn [snd].
  apply advance_score_le.
Qed.

(** C7.  The score is written in one place, where a bullet kills a zombie,
    and grows by 10 there: an iteration of the zombie loop leaves the score
    and the bullets as they are or removes one zombie with one bullet and
    adds 10; a frame adds 10 for each of its kills, which with its contacts
    are the zombies it removes; so the score never decreases, over a step
    and over any run of the host loop. *)
Theorem score_grows_by_ten_per_kill :
  (∀ dt i s,
     let s' := zombies_body dt i s in
     (score s' = score s ∧ bullets s' = bullets s)
     ∨ (score s' = score s + 10
        ∧ ∃ j b z, zombies s !! i = Some z ∧ bullets s !! j = Some b
                   ∧ hits b (zombie_move dt (player s) z) = true
                   ∧ bullets s' = delete j (bullets s)
                   ∧ zombies s' = delete i (zombies s)))
  ∧ (∀ dt fr s, score (update dt fr s) = score s + 10 * INR (kills dt fr s))
  ∧ (∀ dt fr s,
       List.length (zombies s)
       = (List.length (zombies (update_entities dt fr s))
          + kills dt fr s + contacts dt fr s)%nat)
  ∧ (∀ dt fr s, score s <= score (advance dt fr s))
  ∧ (∀ (frs : list Frame) (g : R * World), score (snd g) <= score (snd (run frs g))).
Proof.
  split_and!.
  - intros dt i s. cbn zeta.
    destruct (zombies_body_cases dt i s)
      as [[_ ->]|[(z & _ & _ & ->)|[(z & _ & _ & _ & ->)
         |(z & j & b & Hz & _ & Hb & Hhit & _ & ->)]]].
    + by left.
    + left. unfold touched. cbn zeta. destruct (_ <=? _)%js; done.
    + by left.
    + right. split; [done|]. exists j, b, z. done.
  - apply update_score.
  - apply update_entities_account.
  - apply advance_score_le.
  - apply run_score_le.
Qed.

(** ** The end of the round *)

(** Over a run that starts with [running] true exactly when the player has
    hit points left, the hit points fall by 20 for each contact and the
    round goes on while some are left. *)
Lemma run_hp (frs : list Frame) (g : R * World) :
  running (snd g) = Rltb 0 (player_hp (player (snd g))) →
  let w := snd (run frs g) in
  player_hp (player w)
  = player_hp (player (snd g)) - 20 * INR (sum_list (run_contacts frs g))
  ∧ running w = Rltb 0 (player_hp (player w)).
Proof.
  cbn zeta. revert g. induction frs as [|fr frs IH]; intros g Hinv.
  { cbn. split; [lra|done]. }
  rewrite run_cons. cbn [run_contacts sum_list sum_list_with].
  assert (player_hp (player (snd (gameLoop fr g)))
          = player_hp (player (snd g)) - 20 * INR (frame_contacts fr g)
          ∧ running (snd (gameLoop fr g))
            = Rltb 0 (player_hp (player (snd (gameLoop fr g))))) as [Hhp Hrun].
  { rewrite gameLoop_eq. cbn [snd]. unfold advance, frame_contacts.
    destruct (running (snd g)) eqn:Hr.
    - destruct (update_hp (frame_dt fr g) fr (snd g)) as [Hhp Hrun].
      split; [done|]. rewrite Hrun, Hr, Hhp. cbn [andb].
      destruct (contacts (frame_dt fr g) fr (snd g)); [|done].
      cbn [INR Nat.eqb orb]. rewrite Rmult_0_r, Rminus_0_r. done.
    - cbn [INR]. split; [lra|]. by rewrite Hr. }
  destruct (IH (gameLoop fr g) Hrun) as [-> ->]. split; [|done].
  rewrite Hhp, plus_INR. unfold Datatypes.id. lra.
Qed.

(** C9.  From 100 hit points and a running round, once the frames of a run
    have seen five contacts in all (in five frames, or fewer), no hit point
    is left, [running] is false, and every later step leaves the world as it
    is. *)
Theorem five_contacts_end_the_round (frs : list Frame) (g : R * World) :
  running (snd g) = true →
  player_hp (player (snd g)) = 100 →
  sum_list (run_contacts frs g) = 5%nat →
  let w := snd (run frs g) in
  damageOnTouch CONFIG = 20
  ∧ player_hp (player w) = 0
  ∧ player_hp (player w) <= 0
  ∧ running w = false
  ∧ (∀ dt fr, advance dt fr w = w)
  ∧ (∀ fr, snd (gameLoop fr (run frs g)) = w).
Proof.
  intros Hrun Hhp Hfive w.
  destruct (run_hp frs g) as [Hw Hrw].
  { rewrite Hrun, Hhp, Rltb_true by lra. done. }
  fold w in Hw, Hrw. rewrite Hhp, Hfive in Hw. cbn [INR] in Hw.
  assert (player_hp (player w) = 0) as H0 by lra.
  assert (running w = false) as Hstop by (rewrite Hrw, H0, Rltb_false by lra; done).
  split_and!; [done|done|lra|done| |].
  - intros dt fr. by apply advance_not_running.
  - intros fr. rewrite gameLoop_eq. cbn [snd]. by apply advance_not_running.
Qed.

(** With fewer than five contacts the round goes on. *)
Lemma fewer_contacts_keep_running (frs : list Frame) (g : R * World) :
  running (snd g) = true →
  player_hp (player (snd g)) = 100 →
  (sum_list (run_contacts frs g) < 5)%nat →
  let w := snd (run frs g) in
  0 < player_hp (player w) ∧ running w = true.
Proof.
  intros Hrun Hhp Hfew w.
  destruct (run_hp frs g) as [Hw Hrw].
  { rewrite Hrun, Hhp, Rltb_true by lra. done. }
  fold w in Hw, Hrw. rewrite Hhp in Hw.
  assert (INR (sum_list (run_contacts frs g)) <= 4) as Hle.
  { replace 4 with (INR 4) by (cbn; lra). apply le_INR. lia. }
  split; [lra|]. rewrite Hrw, Rltb_true by lra. done.
Qed.

(** A zombie on the player's centre does not move, and touches. *)
Lemma zombie_on_player_touches dt p z :
  zombie_x z = player_x p → zombie_y z = player_y p →
  0 < zombie_r z + player_radius p →
  touches p (zombie_move dt p z) = true.
Proof.
  intros Hx Hy Hr. unfold zombie_move, zombie_dir. cbn zeta. unjs.
  rewrite Hx, Hy, !Rminus_diag, normalize_0. cbn [vec_x vec_y].
  unfold touches, dist2, set_zombie_xy. cbn. unjs.
  rewrite !Rmult_0_l, !Rplus_0_r, !Rminus_diag, Rmult_0_l, Rplus_0_r.
  apply Rltb_true. nra.
Qed.

Lemma swarm_contacts dt : contacts dt Ideal.idle Ideal.swarm = 5%nat.
Proof.
  destruct arena_ideal as [Hw Hh].
  assert (before_zombies dt Ideal.idle Ideal.swarm = Ideal.swarm) as Hbefore.
  { unfold before_zombies. cbn [frame_canvas frame_keys frame_mouse frame_now Ideal.idle].
    rewrite movePlayer_no_keys by (unfold in_bounds; rewrite Hw, Hh; cbn; lra).
    rewrite tryShoot_idle by (by left). done. }
  unfold contacts. rewrite Hbefore. unfold contacts_among.
  cbn [zombies Ideal.swarm].
  assert (touches (player Ideal.swarm)
            (zombie_move dt (player Ideal.swarm) Ideal.zombie_on_player) = true) as Ht.
  { apply zombie_on_player_touches; cbn; (reflexivity || lra). }
  rewrite !filter_cons_True by exact Ht. done.
Qed.

(** The theorem of C9 on [Ideal.swarm], whose five zombies touch the player
    in the first frame. *)
Lemma five_contacts_end_the_round_witness :
  running (snd (0, Ideal.swarm)) = true
  ∧ player_hp (player (snd (0, Ideal.swarm))) = 100
  ∧ sum_list (run_contacts [Ideal.idle] (0, Ideal.swarm)) = 5%nat
  ∧ running (snd (run [Ideal.idle] (0, Ideal.swarm))) = false.
Proof.
  assert (sum_list (run_contacts [Ideal.idle] (0, Ideal.swarm)) = 5%nat) as Hfive.
  { cbn [run_contacts sum_list sum_list_with]. unfold frame_contacts.
    cbn [snd running Ideal.swarm]. rewrite swarm_contacts. done. }
  split; [reflexivity|]. split; [reflexivity|]. split; [exact Hfive|].
  apply (five_contacts_end_the_round [Ideal.idle] (0, Ideal.swarm));
    [reflexivity|reflexivity|exact Hfive].
Defined.

(** ** More on the moves of a frame *)

Lemma length_sqr x y : length x y * length x y = x * x + y * y.
Proof. unfold length. unjs. apply sqrt_sqrt. nra. Qed.

(** X7.  A zombie away from the player's centre moves straight towards it
    by its speed times [dt]: its distance to the centre, [len] before the
    move, is the absolute value of [len - speed * dt] after it, and
    [len - speed * dt] itself when the step does not overshoot.  A zombie on
    the centre stays there. *)
Theorem zombie_steps_towards_the_player dt p z :
  let len := length (player_x p - zombie_x z) (player_y p - zombie_y z) in
  let z' := zombie_move dt p z in
  (len = 0 → z' = z)
  ∧ (len ≠ 0 →
     dist2 (zombie_x z') (zombie_y z') (player_x p) (player_y p)
     = (len - zombie_speed z * dt) * (len - zombie_speed z * dt)
     ∧ length (player_x p - zombie_x z') (player_y p - zombie_y z')
       = Rabs (len - zombie_speed z * dt)
     ∧ (0 <= zombie_speed z * dt <= len →
        length (player_x p - zombie_x z') (player_y p - zombie_y z')
        = len - zombie_speed z * dt)).
Proof.
  intros len z'. split.
  - intros H0. apply length_0_iff in H0 as [Hx Hy].
    unfold z', zombie_move, zombie_dir. cbn zeta. unjs. rewrite Hx, Hy, normalize_0.
    destruct z. unfold set_zombie_xy. cbn. unjs.
    rewrite !Rmult_0_l, !Rplus_0_r. done.
  - intros Hne.
    pose proof (length_sqr (player_x p - zombie_x z) (player_y p - zombie_y z)) as Hsq.
    fold len in Hsq.
    assert (dist2 (zombie_x z') (zombie_y z') (player_x p) (player_y p)
            = (len - zombie_speed z * dt) * (len - zombie_speed z * dt)) as Hd.
    { unfold z', zombie_move, zombie_dir. cbn zeta. unjs.
      rewrite normalize_nonzero by done. fold len.
      unfold dist2, set_zombie_xy. cbn. unjs.
      repeat match goal with
      | |- context [R_sqrt.sqrt ?a] => change (R_sqrt.sqrt a) with len
      end.
      clearbody len.
      transitivity (((player_x p - zombie_x z) * (player_x p - zombie_x z)
                     + (player_y p - zombie_y z) * (player_y p - zombie_y z))
                    * ((len - zombie_speed z * dt) / len)
                    * ((len - zombie_speed z * dt) / len)).
      - field. done.
      - rewrite <- Hsq. field. done. }
    assert (length (player_x p - zombie_x z') (player_y p - zombie_y z')
            = Rabs (len - zombie_speed z * dt)) as Hl.
    { unfold length. unjs. rewrite <- sqrt_Rsqr_abs. f_equal.
      unfold Rsqr. rewrite <- Hd. unfold dist2. unjs. ring. }
    split_and!; [done..|]. intros Hstep. rewrite Hl. apply Rabs_pos_eq. lra.
Qed.

Lemma clamp_closer (v lo hi x : R) :
  lo <= x <= hi → (clamp v lo hi - x) * (clamp v lo hi - x) <= (v - x) * (v - x).
Proof.
  intros. unfold clamp. unjs. unfold Rmax, Rmin.
  repeat destruct (Rle_dec _ _); nra.
Qed.

Lemma normalize_x_0 y : vec_x (normalize 0 y) = 0.
Proof.
  destruct (normalize_cases 0 y) as [(_ & _ & ->)|(_ & -> & _)]; cbn; [done|].
  unfold Rdiv. apply Rmult_0_l.
Qed.

Lemma normalize_y_0 x : vec_y (normalize x 0) = 0.
Proof.
  destruct (normalize_cases x 0) as [(_ & _ & ->)|(_ & -> & _)]; cbn; [done|].
  unfold Rdiv. apply Rmult_0_l.
Qed.

Lemma normalize_sqr_le_1 x y :
  vec_x (normalize x y) * vec_x (normalize x y)
  + vec_y (normalize x y) * vec_y (normalize x y) <= 1.
Proof.
  destruct (normalize_cases x y) as [(_ & _ & ->)|(_ & _ & ->)]; cbn; lra.
Qed.

(** The movement step, on the direction [(mx, my)] that the keys give. *)
Lemma movePlayer_on_direction dt c (keys : Keys) s :
  ∃ mx my,
    (key_a keys = key_d keys → mx = 0)
    ∧ (key_w keys = key_s keys → my = 0)
    ∧ ∃ nx ny,
        nx * nx + ny * ny <= 1 ∧ (mx = 0 → nx = 0) ∧ (my = 0 → ny = 0)
        ∧ player (movePlayer dt c keys s)
          = set_player_xy
              (clamp (player_x (player s) + nx * 240 * dt)
                 (player_radius (player s) + 6)
                 (arena_w c - player_radius (player s) - 6))
              (clamp (player_y (player s) + ny * 240 * dt)
                 (player_radius (player s) + 6)
                 (arena_h c - player_radius (player s) - 6))
              (player s).
Proof.
  unfold movePlayer. cbn zeta. unjs.
  set (my := if key_s keys then _ else _).
  set (mx := if key_d keys then _ else _).
  exists mx, my. split_and!.
  - intros Had. unfold mx. rewrite Had. destruct (key_d keys); lra.
  - intros Hws. unfold my. rewrite Hws. destruct (key_s keys); lra.
  - destruct (negb (Reqb mx 0) || negb (Reqb my 0)) eqn:Hmove.
    + exists (vec_x (normalize mx my)), (vec_y (normalize mx my)).
      split_and!.
      * apply normalize_sqr_le_1.
      * intros ->. apply normalize_x_0.
      * intros ->. apply normalize_y_0.
      * cbn [player set_player player_x player_y player_radius set_player_xy
             playerSpeed CONFIG]. unjs. done.
    + exists 0, 0. split_and!; [lra|done..|].
      cbn [player set_player]. rewrite !Rmult_0_l, !Rplus_0_r. done.
Qed.

(** X8.  The movement step of a frame takes a player that is within the
    bounds at most [playerSpeed * dt] away, along a diagonal as along an
    axis; two opposite keys held together cancel. *)
Theorem player_moves_at_most_its_speed dt c (keys : Keys) s :
  in_bounds c (player s) →
  let p := player s in
  let p' := player (movePlayer dt c keys s) in
  (player_x p' - player_x p) * (player_x p' - player_x p)
  + (player_y p' - player_y p) * (player_y p' - player_y p)
  <= (240 * dt) * (240 * dt)
  ∧ (key_a keys = key_d keys → player_x p' = player_x p)
  ∧ (key_w keys = key_s keys → player_y p' = player_y p).
Proof.
  intros [Hx Hy] p p'.
  destruct (movePlayer_on_direction dt c keys s)
    as (mx & my & Hmx & Hmy & nx & ny & Hn & Hnx & Hny & Heq).
  unfold p'. rewrite Heq. cbn [player_x player_y set_player_xy]. fold p.
  split_and!.
  - pose proof (clamp_closer (player_x p + nx * 240 * dt) _ _ _ Hx) as Hcx.
    pose proof (clamp_closer (player_y p + ny * 240 * dt) _ _ _ Hy) as Hcy.
    fold p in Hcx, Hcy. nra.
  - intros Had. rewrite (Hnx (Hmx Had)), !Rmult_0_l, Rplus_0_r. by apply clamp_id.
  - intros Hws. rewrite (Hny (Hmy Hws)), !Rmult_0_l, Rplus_0_r. by apply clamp_id.
Qed.

(** X9.  A shot whose aim is not the player's own position puts a bullet at
    [radius + 8] from the player's centre, in the direction of the aim, with
    a velocity of length 800 in that direction, radius 4 and 1800 ms to
    live, moves the player back by 4, and sets [lastShot] to [now]. *)
Theorem shot_leaves_the_muzzle (mouse : Mouse) now s :
  mouse_down mouse = true →
  200 <= now - player_lastShot (player s) →
  mouse_x mouse ≠ player_x (player s) ∨ mouse_y mouse ≠ player_y (player s) →
  let p := player s in
  let p' := player (tryShoot mouse now s) in
  let dx := mouse_x mouse - player_x p in
  let dy := mouse_y mouse - player_y p in
  ∃ b, bullets (tryShoot mouse now s) = bullets s ++ [b]
    ∧ (bullet_x b - player_x p) * (bullet_x b - player_x p)
      + (bullet_y b - player_y p) * (bullet_y b - player_y p)
      = (player_radius p + 8) * (player_radius p + 8)
    ∧ bullet_vx b * bullet_vx b + bullet_vy b * bullet_vy b = 800 * 800
    ∧ bullet_vx b * dy = bullet_vy b * dx
    ∧ 0 < bullet_vx b * dx + bullet_vy b * dy
    ∧ (bullet_x b - player_x p) * bullet_vy b = (bullet_y b - player_y p) * bullet_vx b
    ∧ bullet_r b = 4 ∧ bullet_life b = 1800
    ∧ (player_x p' - player_x p) * (player_x p' - player_x p)
      + (player_y p' - player_y p) * (player_y p' - player_y p) = 4 * 4
    ∧ player_lastShot p' = now.
Proof.
  intros Hdown Hrate Haim p p' dx dy.
  unfold p'. rewrite tryShoot_fires by done. cbn zeta. fold p dx dy.
  destruct (normalize_cases dx dy) as [(Hx & Hy & _)|(Hlen & Hn & Hunit)].
  { unfold dx, dy, p in *. destruct Haim; lra. }
  pose proof (length_sqr dx dy) as Hsq.
  eexists. split; [reflexivity|].
  cbn [player set_player bullet_x bullet_y bullet_vx bullet_vy bullet_r bullet_life
       makeBullet player_x player_y player_lastShot bulletRadius CONFIG]. unjs.
  set (nx := vec_x (normalize dx dy)) in *. set (ny := vec_y (normalize dx dy)) in *.
  assert (nx = dx / length dx dy ∧ ny = dy / length dx dy) as [Hnx Hny]
    by (unfold nx, ny; rewrite Hn; done).
  split_and!; try done; try nra.
  - transitivity ((nx * nx + ny * ny) * ((player_radius p + 8) * (player_radius p + 8)));
      [ring|]. rewrite Hunit. ring.
  - rewrite Hnx, Hny.
    replace (dx / length dx dy * 800 * dx + dy / length dx dy * 800 * dy)
      with (800 * length dx dy) by (field_simplify_eq; [nra|lra]).
    lra.
Qed.


(** ** More on spawning *)

Lemma floor_bounds (x : R) : IZR (Int_part x) <= x < IZR (Int_part x) + 1.
Proof. destruct (base_Int_part x). lra. Qed.


(** The zombie that [spawnZombie] adds, by the side it is put on. *)
Lemma spawnZombie_zombie c (rnd : Random) (level : R) s :
  ∃ x y,
    zombies (spawnZombie c rnd level s)
    = zombies s
      ++ [mkZombie x y 18 (50 + level * 8 + rnd_speed rnd * 10)
                   (30 + IZR (Int_part (rnd_hp rnd * 20)))]
    ∧ ((y = -40 ∧ x = randRange (rnd_along rnd) 20 (arena_w c - 20))
       ∨ (x = arena_w c + 40 ∧ y = randRange (rnd_along rnd) 20 (arena_h c - 20))
       ∨ (y = arena_h c + 40 ∧ x = randRange (rnd_along rnd) 20 (arena_w c - 20))
       ∨ (x = -40 ∧ y = randRange (rnd_along rnd) 20 (arena_h c - 20))).
Proof.
  unfold spawnZombie. cbn zeta. unjs.
  cbn [zombies set_zombies makeZombie zombieRadius zombieSpeedBase
       zombieSpeedPerLevel CONFIG]. unjs.
  destruct (Reqb _ 0); [cbn [fst snd]; eauto 10|].
  destruct (Reqb _ 1); [cbn [fst snd]; eauto 10|].
  destruct (Reqb _ 2); cbn [fst snd]; eauto 10.
Qed.


(** X12.  The zombie that [spawnZombie] adds, 40 outside an edge whatever the
    random numbers are, does not touch a player that is within the bounds. *)
Theorem spawned_zombie_is_out_of_reach c (rnd : Random) (level : R) s p :
  in_bounds c p →
  0 <= player_radius p →
  ∃ z, zombies (spawnZombie c rnd level s) = zombies s ++ [z]
    ∧ touches p z = false.
Proof.
  intros [Hx Hy] Hr.
  destruct (spawnZombie_zombie c rnd level s) as (x & y & Hz & Hside).
  eexists. split; [exact Hz|]. unfold touches, dist2. cbn zeta.
  cbn [zombie_x zombie_y zombie_r]. unjs. apply Rltb_false.
  assert (∀ u v : R, 18 + player_radius p <= u → 0 <= v * v →
            (18 + player_radius p) * (18 + player_radius p) <= u * u + v * v) as Hfar
    by (intros; nra).
  assert (∀ u v : R, 18 + player_radius p <= u → 0 <= v * v →
            (18 + player_radius p) * (18 + player_radius p) <= v * v + u * u) as Hfar'
    by (intros; nra).
  pose proof (Rle_0_sqr (x - player_x p)) as Hx2.
  pose proof (Rle_0_sqr (y - player_y p)) as Hy2. unfold Rsqr in Hx2, Hy2.
  destruct Hside as [[-> _]|[[-> _]|[[-> _]|[-> _]]]].
  - replace ((-40 - player_y p) * (-40 - player_y p))
      with ((player_y p + 40) * (player_y p + 40)) by ring.
    apply Hfar'; [lra|nra].
  - apply Hfar; [lra|nra].
  - apply Hfar'; [lra|nra].
  - replace ((-40 - player_x p) * (-40 - player_x p))
      with ((player_x p + 40) * (player_x p + 40)) by ring.
    apply Hfar; [lra|nra].
Qed.

(** X13.  With fewer than six zombies left by the zombie loop, a zombie is
    spawned as soon as the timer of the frame exceeds the spawn interval. *)
Theorem fewer_than_six_zombies_spawn dt fr s :
  let s0 := update_entities dt fr s in
  (List.length (zombies s0) < 6)%nat →
  spawnInterval s0 < spawnTimer s0 + dt * 1000 →
  List.length (zombies (update dt fr s)) = S (List.length (zombies s0))
  ∧ spawnTimer (update dt fr s) = 0.
Proof.
  intros s0 Hfew Hdue. unfold update. fold s0. unfold updateSpawn. cbn zeta.
  assert (spawn_due
            (set_difficultyTimer
               (difficultyTimer (set_spawnTimer (spawnTimer s0 + dt * num 1000)%js s0)
                + dt * num 1000)%js
               (set_spawnTimer (spawnTimer s0 + dt * num 1000)%js s0)) = true) as ->.
  { unfold spawn_due. cbn [spawnTimer spawnInterval zombies score difficultyTimer
                           set_difficultyTimer set_spawnTimer]. unjs.
    rewrite Rltb_true by done. cbn [andb]. apply Rltb_true.
    match goal with |- _ < desiredMaxZombies ?l ?sc =>
      pose proof (desiredMaxZombies_bounds l sc) as [Hmin _] end.
    rewrite <- INR_IZR_INZ.
    assert (INR (List.length (zombies s0)) < INR 6) as Hlt by (apply lt_INR; lia).
    replace (INR 6) with 6 in Hlt by (rewrite INR_IZR_INZ; done). lra. }
  unfold spawnZombie. cbn zeta.
  cbn [zombies set_zombies set_spawnInterval set_spawnTimer set_difficultyTimer
       spawnTimer]. unjs.
  split; [|done]. rewrite length_app. cbn. lia.
Qed.

Lemma update_entities_keeps_timers dt fr s :
  spawnTimer (update_entities dt fr s) = spawnTimer s
  ∧ spawnInterval (update_entities dt fr s) = spawnInterval s
  ∧ difficultyTimer (update_entities dt fr s) = difficultyTimer s.
Proof.
  rewrite update_entities_eq. unfold updateZombies.
  match goal with
  | |- context [zombies_loop dt ?k ?s0] =>
      destruct (zombies_loop_frame dt k s0) as (_ & -> & -> & -> & _)
  end.
  unfold before_zombies.
  destruct (movePlayer_keeps dt (frame_canvas fr) (frame_keys fr) s)
    as (_ & _ & _ & _ & <- & <- & <- & _).
  destruct (tryShoot_keeps (frame_mouse fr) (frame_now fr)
              (movePlayer dt (frame_canvas fr) (frame_keys fr) s))
    as (_ & _ & _ & <- & <- & <- & _).
  done.
Qed.

(** The timers after a frame. *)
Lemma update_timers dt fr s :
  difficultyTimer (update dt fr s) = difficultyTimer s + dt * 1000
  ∧ ((spawnTimer (update dt fr s) = spawnTimer s + dt * 1000
      ∧ spawnInterval (update dt fr s) = spawnInterval s)
     ∨ (spawnTimer (update dt fr s) = 0
        ∧ 380 <= spawnInterval (update dt fr s) <= 2000
        ∧ (0 <= difficultyTimer s + dt * 1000 → spawnInterval (update dt fr s) <= 1000))).
Proof.
  destruct (update_entities_keeps_timers dt fr s) as (Hst & Hsi & Hdt).
  unfold update, updateSpawn. cbn zeta.
  destruct (spawn_due _).
  - unfold spawnZombie. cbn zeta.
    cbn [difficultyTimer spawnTimer spawnInterval set_zombies set_spawnInterval
         set_spawnTimer set_difficultyTimer]. unjs. rewrite Hdt.
    split; [done|]. right. split; [done|].
    split; [apply clamp_bounds; lra|].
    intros Hpos. unfold clamp, difficultyLevel. unjs.
    destruct (floor_bounds ((difficultyTimer s + dt * 1000) / 15000)) as [_ Hfl].
    assert (0 <= (difficultyTimer s + dt * 1000) / 15000) as Hq
      by (apply Rmult_le_pos; lra).
    assert (-1 < IZR (Int_part ((difficultyTimer s + dt * 1000) / 15000))) as Hl by lra.
    apply lt_IZR in Hl.
    assert (0 <= IZR (Int_part ((difficultyTimer s + dt * 1000) / 15000))) as Hl'
      by (apply IZR_le; lia).
    unfold Rmax, Rmin. repeat destruct (Rle_dec _ _); lra.
  - cbn [difficultyTimer spawnTimer spawnInterval set_spawnTimer set_difficultyTimer].
    unjs. rewrite Hst, Hsi, Hdt. split; [done|]. by left.
Qed.

(** X14.  A spawn interval from 380 to 2000, such as the 1500 of a fresh
    round, stays within these bounds over every run of the host loop: a
    spawn sets it to a value clamped to them, and nothing else writes it. *)
Theorem spawn_interval_stays_within_bounds (frs : list Frame) (g : R * World) :
  380 <= spawnInterval (snd g) <= 2000 →
  380 <= spawnInterval (snd (run frs g)) <= 2000.
Proof.
  revert g. induction frs as [|fr frs IH]; intros g Hg; [done|].
  rewrite run_cons. apply IH. rewrite gameLoop_eq. cbn [snd]. unfold advance.
  destruct (running (snd g)); [|done].
  destruct (update_timers (frame_dt fr g) fr (snd g)) as (_ & [[_ ->]|(_ & ? & _)]); done.
Qed.

(** X15.  Over every run of the host loop the zombies are never more than
    40, or than there were at its start. *)
Theorem never_more_than_forty_zombies (frs : list Frame) (g : R * World) :
  (List.length (zombies (snd (run frs g)))
   ≤ Nat.max (List.length (zombies (snd g))) 40)%nat.
Proof.
  revert g. induction frs as [|fr frs IH]; intros g; [cbn; lia|].
  rewrite run_cons. etrans; [apply IH|]. rewrite gameLoop_eq. cbn [snd].
  unfold advance. destruct (running (snd g)); [|lia].
  pose proof (zombies_capped (frame_dt fr g) fr (snd g)). lia.
Qed.

(** ** More on the hit points *)

(** X16.  A frame takes 20 hit points for each of its contacts and gives
    none, so that the hit points never grow over a run of the host loop; and
    a world that is not running is left as it is by every run. *)
Theorem hit_points_only_fall :
  (∀ dt fr s,
     player_hp (player (update dt fr s))
     = player_hp (player s) - 20 * INR (contacts dt fr s)
     ∧ player_hp (player (update dt fr s)) <= player_hp (player s))
  ∧ (∀ (frs : list Frame) (g : R * World),
       player_hp (player (snd (run frs g))) <= player_hp (player (snd g)))
  ∧ (∀ (frs : list Frame) (g : R * World),
       running (snd g) = false → snd (run frs g) = snd g).
Proof.
  assert (∀ dt fr s, player_hp (player (update dt fr s)) <= player_hp (player s)) as Hle.
  { intros dt fr s. destruct (update_hp dt fr s) as [-> _].
    pose proof (pos_INR (contacts dt fr s)). lra. }
  split_and!.
  - intros dt fr s. split; [apply update_hp|apply Hle].
  - intros frs. induction frs as [|fr frs IH]; intros g; [cbn; lra|].
    rewrite run_cons. etrans; [apply IH|]. rewrite gameLoop_eq. cbn [snd].
    unfold advance. destruct (running (snd g)); [apply Hle|lra].
  - intros frs. induction frs as [|fr frs IH]; intros g Hstop; [done|].
    rewrite run_cons, gameLoop_eq. rewrite IH; cbn [snd];
      rewrite advance_not_running by done; done.
Qed.

(** ** The canvas and the start of a round *)

Lemma div_bounds (a b D : R) :
  0 < D → a <= b * D < a + 1 → b - 1 / D < a / D <= b.
Proof.
  intros HD [Hlo Hhi]. split.
  - apply Rmult_lt_reg_r with D; [done|].
    replace ((b - 1 / D) * D) with (b * D - 1) by (field; lra).
    replace (a / D * D) with a by (field; lra). lra.
  - apply Rmult_le_reg_r with D; [done|].
    replace (a / D * D) with a by (field; lra). lra.
Qed.

(** X17.  [resizeCanvas] gives the canvas the size of its box in device
    pixels, rounded down, for a device pixel ratio capped at 2, while the
    arena of [update] divides by the ratio itself: up to a ratio of 2 the
    arena is as wide as the box, less than one device pixel apart, and above
    2 it is narrower, two over the ratio of the box at most.  A box of
    height 0 gives the canvas the height of 640 units. *)
Theorem arena_of_the_resized_canvas (rect : Rect) c :
  let D := dpr_or_1 c in
  let c' := resizeCanvas rect c in
  0 < D →
  (D <= 2 → rect_width rect - 1 / D < arena_w c' <= rect_width rect)
  ∧ (2 <= D → 0 <= rect_width rect →
     arena_w c' <= rect_width rect * (2 / D) <= rect_width rect)
  ∧ (rect_height rect ≠ 0 → D <= 2 →
     rect_height rect - 1 / D < arena_h c' <= rect_height rect)
  ∧ (rect_height rect = 0 → arena_h c' = IZR (Int_part (640 * Rmin D 2)) / D).
Proof.
  intros D c' HD.
  assert (arena_w c' = IZR (Int_part (rect_width rect * Rmin D 2)) / D) as Hw by done.
  assert (0 < Rmin D 2) as Hscale by (unfold Rmin; destruct (Rle_dec _ _); lra).
  assert (arena_h c'
          = IZR (Int_part (if Reqb (rect_height rect * Rmin D 2) 0
                           then 640 * Rmin D 2 else rect_height rect * Rmin D 2)) / D)
    as Hh.
  { unfold arena_h, c', resizeCanvas. cbn zeta. cbn [canvas_height].
    change (dpr_or_1 (mkCanvas _ _ (devicePixelRatio c))) with D.
    change (or_else (devicePixelRatio c) (num 1)) with D.
    unfold or_else. unjs.
    rewrite (Reqb_true (rect_height rect * Rmin D 2) (rect_height rect * Rmin D 2))
      by done.
    cbn [negb]. rewrite orb_false_r. done. }
  split_and!.
  - intros Hle. rewrite Hw, Rmin_left by done.
    apply div_bounds; [done|]. apply floor_bounds.
  - intros Hge Hrw. rewrite Hw, Rmin_right by done.
    destruct (floor_bounds (rect_width rect * 2)) as [Hfl _].
    split.
    + apply Rmult_le_reg_r with D; [done|].
      replace (IZR (Int_part (rect_width rect * 2)) / D * D)
        with (IZR (Int_part (rect_width rect * 2))) by (field; lra).
      replace (rect_width rect * (2 / D) * D) with (rect_width rect * 2)
        by (field; lra).
      done.
    + apply Rmult_le_reg_r with D; [done|].
      replace (rect_width rect * (2 / D) * D) with (rect_width rect * 2)
        by (field; lra).
      nra.
  - intros Hne Hle. rewrite Hh, Rmin_left by done.
    rewrite Reqb_false by nra.
    apply div_bounds; [done|]. apply floor_bounds.
  - intros H0. rewrite Hh, H0, Rmult_0_l, Reqb_true by done. done.
Qed.

(** X18.  A round starts from nothing of the world before: running, with
    100 hit points, no score and no entity, the player at the centre of the
    arena, which is within the bounds in an arena of 44 by 44 or more. *)
Theorem round_starts_at_the_centre c (t : R) s s' :
  let w0 := snd (startGame c t s) in
  startGame c t s = startGame c t s'
  ∧ running w0 = true ∧ player_hp (player w0) = 100 ∧ score w0 = 0
  ∧ bullets w0 = [] ∧ zombies w0 = []
  ∧ player_x (player w0) = arena_w c / 2
  ∧ player_y (player w0) = arena_h c / 2
  ∧ (44 <= arena_w c → 44 <= arena_h c → in_bounds c (player w0)).
Proof.
  intros w0.
  assert (player_x (player w0) = arena_w c / 2 ∧ player_y (player w0) = arena_h c / 2)
    as [Hx Hy].
  { unfold w0, arena_w, arena_h. cbn. unjs. unfold Rdiv. split; ring. }
  split_and!; try done.
  intros Hw Hh. unfold in_bounds. rewrite Hx, Hy.
  assert (player_radius (player w0) = 16) as -> by done. lra.
Qed.

(** ** The host loop on the globals *)




(** ** The theorems above on the scenarios *)

Lemma fresh_in_bounds : in_bounds Ideal.canvas (player Ideal.fresh).
Proof. destruct arena_ideal as [Hw Hh]. unfold in_bounds. rewrite Hw, Hh. cbn. lra. Qed.

(** The theorem of X8 on [Ideal.fresh]. *)
Lemma player_moves_at_most_its_speed_witness :
  in_bounds Ideal.canvas (player Ideal.fresh)
  ∧ (key_a Ideal.no_keys = key_d Ideal.no_keys →
     player_x (player (movePlayer (1 / 64) Ideal.canvas Ideal.no_keys Ideal.fresh))
     = player_x (player Ideal.fresh)).
Proof.
  split; [exact fresh_in_bounds|].
  apply (player_moves_at_most_its_speed (1 / 64) Ideal.canvas Ideal.no_keys Ideal.fresh
           fresh_in_bounds).
Defined.

(** The theorem of X9 on [Ideal.fresh], the aim to the right. *)
Lemma shot_leaves_the_muzzle_witness :
  mouse_down Ideal.aim_east = true
  ∧ 200 <= 1000 - player_lastShot (player Ideal.fresh)
  ∧ (mouse_x Ideal.aim_east ≠ player_x (player Ideal.fresh)
     ∨ mouse_y Ideal.aim_east ≠ player_y (player Ideal.fresh))
  ∧ ∃ b, bullets (tryShoot Ideal.aim_east 1000 Ideal.fresh) = bullets Ideal.fresh ++ [b]
      ∧ bullet_vx b * bullet_vx b + bullet_vy b * bullet_vy b = 800 * 800.
Proof.
  assert (200 <= 1000 - player_lastShot (player Ideal.fresh)) as Hrate by (cbn; lra).
  assert (mouse_x Ideal.aim_east ≠ player_x (player Ideal.fresh)
          ∨ mouse_y Ideal.aim_east ≠ player_y (player Ideal.fresh)) as Haim
    by (left; cbn; lra).
  split; [reflexivity|]. split; [exact Hrate|]. split; [exact Haim|].
  destruct (shot_leaves_the_muzzle Ideal.aim_east 1000 Ideal.fresh eq_refl Hrate Haim)
    as (b & Hb & _ & Hv & _).
  exists b. split; [exact Hb|exact Hv].
Defined.



(** The theorem of X12 for the player of [Ideal.fresh]. *)
Lemma spawned_zombie_is_out_of_reach_witness :
  in_bounds Ideal.canvas (player Ideal.fresh)
  ∧ 0 <= player_radius (player Ideal.fresh)
  ∧ ∃ z, zombies (spawnZombie Ideal.canvas Ideal.no_spawn 0 Ideal.fresh)
         = zombies Ideal.fresh ++ [z]
      ∧ touches (player Ideal.fresh) z = false.
Proof.
  split; [exact fresh_in_bounds|]. split; [cbn; lra|].
  apply (spawned_zombie_is_out_of_reach Ideal.canvas Ideal.no_spawn 0 Ideal.fresh
           (player Ideal.fresh)); [exact fresh_in_bounds|cbn; lra].
Defined.

Lemma overdue_entities :
  zombies (update_entities 0 Ideal.idle Ideal.overdue) = []
  ∧ spawnTimer (update_entities 0 Ideal.idle Ideal.overdue) = 1600
  ∧ spawnInterval (update_entities 0 Ideal.idle Ideal.overdue) = 1500.
Proof.
  destruct (update_entities_keeps_timers 0 Ideal.idle Ideal.overdue) as (-> & -> & _).
  split; [|done].
  rewrite update_entities_eq. unfold updateZombies.
  rewrite before_zombies_keeps_zombies. done.
Qed.

(** The theorem of X13 on [Ideal.overdue]. *)
Lemma fewer_than_six_zombies_spawn_witness :
  (List.length (zombies (update_entities 0%R Ideal.idle Ideal.overdue)) < 6)%nat
  ∧ spawnInterval (update_entities 0 Ideal.idle Ideal.overdue)
    < spawnTimer (update_entities 0 Ideal.idle Ideal.overdue) + 0 * 1000
  ∧ spawnTimer (update 0 Ideal.idle Ideal.overdue) = 0.
Proof.
  destruct overdue_entities as (Hz & Ht & Hi).
  assert (List.length (zombies (update_entities 0%R Ideal.idle Ideal.overdue)) < 6)%nat
    as Hfew by (rewrite Hz; cbn; lia).
  assert (spawnInterval (update_entities 0 Ideal.idle Ideal.overdue)
          < spawnTimer (update_entities 0 Ideal.idle Ideal.overdue) + 0 * 1000)
    as Hdue by (rewrite Ht, Hi; lra).
  split; [exact Hfew|]. split; [exact Hdue|].
  apply (fewer_than_six_zombies_spawn 0 Ideal.idle Ideal.overdue Hfew Hdue).
Defined.

(** The theorem of X14 from [Ideal.fresh], over one frame. *)
Lemma spawn_interval_stays_within_bounds_witness :
  380 <= spawnInterval (snd (0, Ideal.fresh)) <= 2000
  ∧ 380 <= spawnInterval (snd (run [Ideal.idle] (0, Ideal.fresh))) <= 2000.
Proof.
  assert (380 <= spawnInterval (snd (0, Ideal.fresh)) <= 2000) as H by (cbn; lra).
  split; [exact H|].
  apply (spawn_interval_stays_within_bounds [Ideal.idle] (0, Ideal.fresh) H).
Defined.

Lemma dpr_ideal : dpr_or_1 Ideal.canvas = 1.
Proof. unfold dpr_or_1. cbn. rtest. done. Qed.

(** The theorem of X17 on the box of 800 by 640 at a pixel ratio of 1. *)
Lemma arena_of_the_resized_canvas_witness :
  0 < dpr_or_1 Ideal.canvas
  ∧ arena_w (resizeCanvas Ideal.box Ideal.canvas) <= rect_width Ideal.box.
Proof.
  assert (0 < dpr_or_1 Ideal.canvas) as HD by (rewrite dpr_ideal; lra).
  split; [exact HD|].
  destruct (arena_of_the_resized_canvas Ideal.box Ideal.canvas HD) as [Hw _].
  apply Hw. rewrite dpr_ideal. lra.
Defined.


End OnReals.

(** * Checks on IEEE numbers *)

Section OnFloats.
Local Open Scope float_scope.
Import Scenario.

(** The helpers at the carrier [float] compute what a JavaScript engine
    computes. *)
Example normalize_3_4 : normalize 3 4 = mkVec (3 / 5) (4 / 5).
Proof. vm_compute. reflexivity. Qed.

(** C1: the claim fails on [last_stand].  The contact of the zombie at
    index 1, the first in iteration order, brings the hit points to 0 and
    ends the round; the iteration at index 0 still runs: the other zombie
    deals its damage and is removed. *)
Lemma death_stops_the_pass_counterexample :
  let s1 := zombies_body dt 1 last_stand in
  running s1 = false
  ∧ player_hp (player s1) = 0
  ∧ List.length (zombies s1) = 1%nat
  ∧ zombies_loop dt 1 s1 ≠ s1
  ∧ player_hp (player (zombies_loop dt 1 s1)) = -20
  ∧ zombies (zombies_loop dt 1 s1) = []
  ∧ player_hp (player (update dt (idle 1000) last_stand)) = -20
  ∧ zombies (update dt (idle 1000) last_stand) = [].
Proof.
  cbn zeta. split_and!; try (vm_compute; reflexivity).
  intros H. apply (f_equal (λ s, List.length (zombies s))) in H.
  vm_compute in H. discriminate H.
Qed.

(** The theorem of C1 on [last_stand], at the iteration of index 1. *)
Lemma death_does_not_stop_the_zombie_pass_witness :
  zombies last_stand !! 1%nat = Some zombie_right
  ∧ touches (player last_stand) (zombie_move dt (player last_stand) zombie_right) = true
  ∧ (player_hp (player last_stand) - damageOnTouch CONFIG <=? num 0)%js = true
  ∧ zombies_loop dt 1 (zombies_body dt 1 last_stand)
    = set_running false
        (zombies_loop dt 1 (set_running true (zombies_body dt 1 last_stand))).
Proof.
  do 3 (split; [vm_compute; reflexivity|]).
  apply (death_does_not_stop_the_zombie_pass dt canvas no_spawn 1 zombie_right last_stand);
    vm_compute; reflexivity.
Defined.

(** C5: the claim fails on [crossfire].  Both bullets overlap the zombie,
    before and after their own move of the frame; the one removed is the
    bullet at index 1, and the bullet at index 0, the lowest overlapping
    index, stays. *)
Lemma lowest_index_bullet_counterexample :
  let z1 := zombie_move dt (player crossfire) zombie_far in
  touches (player crossfire) z1 = false
  ∧ hits bullet_low z1 = true
  ∧ hits bullet_high z1 = true
  ∧ bullets (zombies_body dt 0 crossfire) = [bullet_low]
  ∧ bullets (zombies_body dt 0 crossfire) ≠ delete 0%nat (bullets crossfire)
  ∧ hits (bullet_step dt bullet_low) z1 = true
  ∧ hits (bullet_step dt bullet_high) z1 = true
  ∧ bullets (update dt (idle 1000) crossfire) = [bullet_step dt bullet_low].
Proof.
  cbn zeta. split_and!; try (vm_compute; reflexivity).
  intros H.
  apply (f_equal (λ l, match l with b :: _ => bullet_x b <? 300 | [] => false end)) in H.
  vm_compute in H. discriminate H.
Qed.

(** The theorem of C5 on [crossfire]: the bullet at index 1 is removed. *)
Lemma last_overlapping_bullet_wins_witness :
  zombies crossfire !! 0%nat = Some zombie_far
  ∧ touches (player crossfire) (zombie_move dt (player crossfire) zombie_far) = false
  ∧ bullets crossfire !! 1%nat = Some bullet_high
  ∧ hits bullet_high (zombie_move dt (player crossfire) zombie_far) = true
  ∧ bullets (zombies_body dt 0 crossfire) = delete 1%nat (bullets crossfire).
Proof.
  do 4 (split; [vm_compute; reflexivity|]).
  apply (last_overlapping_bullet_wins dt 0 zombie_far crossfire 1 bullet_high);
    try (vm_compute; reflexivity).
  intros [|[|j']] b' Hlt Hb'; [lia..|]. discriminate Hb'.
Defined.

(** [normalize] on the zeros, on a vector whose squares underflow, and on
    NaN: a value every time. *)
Example normalize_zero :
  normalize 0 0 = mkVec 0 0 ∧ normalize (-0) 0 = mkVec 0 0
  ∧ normalize 0x1p-600 0 = mkVec 0 0 ∧ normalize nan 0 = mkVec nan nan.
Proof. split_and!; vm_compute; reflexivity. Qed.

(** The shot aimed at the player's own position: a bullet that does not
    move is fired, and it is in the world at the end of the frame. *)
Example zero_aim_on_floats :
  bullets (tryShoot aim_on_player 1000 fresh) = [mkBullet 100 100 0 0 4 1800]
  ∧ bullets (update dt (shoot aim_on_player) fresh)
    = [mkBullet 100 100 0 0 4 1784.375]
  ∧ player_lastShot (player (update dt (shoot aim_on_player) fresh)) = 1000.
Proof. split_and!; vm_compute; reflexivity. Qed.

(** The recoil of a shot fired at the left bound. *)
Example recoil_on_floats :
  player_x (player (update dt (shoot (mkMouse 122 100 true)) cornered)) = 18.
Proof. vm_compute. reflexivity. Qed.

(** A frame of no duration with the pointer held. *)
Example zero_dt_shot_on_floats :
  bullets (update 0 (shoot aim_east) fresh) = [mkBullet 124 100 800 0 4 1800]
  ∧ player_x (player (update 0 (shoot aim_east) fresh)) = 96.
Proof. split_and!; vm_compute; reflexivity. Qed.

(** The scenario of the five contacts in five frames: after four of them
    the round goes on with 20 hit points; the fifth ends it, and a sixth
    frame changes nothing. *)
Example five_frames_on_floats :
  run_contacts five_frames (0, queue) = [1; 1; 1; 1; 1]%nat
  ∧ player_hp (player (snd (run four_frames (0, queue)))) = 20
  ∧ running (snd (run four_frames (0, queue))) = true
  ∧ player_hp (player (snd (run five_frames (0, queue)))) = 0
  ∧ running (snd (run five_frames (0, queue))) = false
  ∧ zombies (snd (run five_frames (0, queue))) = []
  ∧ snd (gameLoop (idle 93.75) (run five_frames (0, queue)))
    = snd (run five_frames (0, queue)).
Proof. split_and!; vm_compute; reflexivity. Qed.

(** The bullet meets the zombie within the frame: both are removed and the
    score is 10. *)
Example duel_on_floats :
  let s' := update 0.0625 (idle 1000) duel in
  zombies s' = [] ∧ bullets s' = [] ∧ score s' = 10
  ∧ player_hp (player s') = 100
  ∧ kills 0.0625 (idle 1000) duel = 1%nat.
Proof. cbn zeta. split_and!; vm_compute; reflexivity. Qed.

(** The theorem of X1 on [crossfire]: the bullet that the frame leaves. *)
Lemma bullets_left_are_alive_witness :
  bullet_step dt bullet_low ∈ bullets (update dt (idle 1000) crossfire)
  ∧ (bullet_life (bullet_step dt bullet_low) <=? num 0)%js = false.
Proof.
  assert (bullet_step dt bullet_low ∈ bullets (update dt (idle 1000) crossfire)) as Hin.
  { assert (bullets (update dt (idle 1000) crossfire) = [bullet_step dt bullet_low])
      as -> by (vm_compute; reflexivity).
    apply list_elem_of_here. }
  split; [exact Hin|].
  destruct (bullets_left_are_alive dt (idle 1000) crossfire _ Hin) as [Hlife _].
  exact Hlife.
Defined.

(** The theorem of X2 on [queue]: the last zombie of the line, after the
    first frame. *)
Lemma survivors_are_apart_witness :
  mkZombie 469 300 18 640 30 ∈ zombies (update_entities dt (idle 15.625) queue)
  ∧ touches (player (update_entities dt (idle 15.625) queue))
            (mkZombie 469 300 18 640 30) = false.
Proof.
  assert (mkZombie 469 300 18 640 30
          ∈ zombies (update_entities dt (idle 15.625) queue)) as Hin.
  { assert (zombies (update_entities dt (idle 15.625) queue)
            = [mkZombie 439 300 18 640 30; mkZombie 449 300 18 640 30;
               mkZombie 459 300 18 640 30; mkZombie 469 300 18 640 30])
      as -> by (vm_compute; reflexivity).
    do 3 apply list_elem_of_further. apply list_elem_of_here. }
  split; [exact Hin|].
  destruct (survivors_are_apart dt (idle 15.625) queue _ Hin) as [Hapart _].
  exact Hapart.
Defined.

(** The theorem of X5: [W] pressed and [ArrowUp] released. *)
Lemma release_of_any_name_clears_witness :
  key_names !! 0%nat = Some ["w"; "W"; "ArrowUp"]%string
  ∧ key_w (g_keys (keydown "W" canvas 0 at_rest)) = true
  ∧ key_w (g_keys (keyup "ArrowUp" (keydown "W" canvas 0 at_rest))) = false.
Proof.
  assert ("W"%string ∈ ["w"; "W"; "ArrowUp"]%string) as HW
    by (apply list_elem_of_further, list_elem_of_here).
  assert ("ArrowUp"%string ∈ ["w"; "W"; "ArrowUp"]%string) as HUp
    by (do 2 apply list_elem_of_further; apply list_elem_of_here).
  split; [reflexivity|].
  destruct (release_of_any_name_clears 0 _ "W" "ArrowUp" canvas 0 at_rest
              eq_refl HW HUp) as (Hdown & Hup & _).
  split; [exact Hdown|exact Hup].
Defined.

End OnFloats.
